(** * PinPad: the input state machine of the PIN-entry control

    A shallow embedding of [src/components/ui/PinPad.tsx].  The component
    keeps no buffer of its own: the digits typed so far arrive in the
    [value] prop and every change is a request to the caller through
    [onChange].  What the component does own is hook state (the previous
    [isPinAccepted], the dependency arrays of its effects, their cleanups)
    and at most one pending timeout of the window.

    Everything the component does to the outside is recorded as a [Call];
    a handler or a render returns the list of calls it makes, in order. *)

From Stdlib Require Import ZArith List String Bool Lia.
Import ListNotations.

Local Open Scope string_scope.
Local Open Scope list_scope.
Local Open Scope Z_scope.

(** ** Props *)

(** A caller-supplied function, known by its identity only: the
    dependency arrays compare callbacks with [!==]. *)
Definition Callback := nat.

(** [type?: 'error' | 'success'] *)
Inductive PinType : Set := error | success.

(** [OwnProps & StateProps], without [title], [className], [isMinified]
    and [authConfig], which reach the markup only.  An optional prop
    that was not passed is [None]. *)
Record Props : Set := {
  isActive : option bool;
  type : option PinType;
  value : string;
  length : option Z;
  resetStateDelayMs : option Z;
  isPinAccepted : option bool;
  onBiometricsClick : option Callback;
  onChange : Callback;
  onClearError : option Callback;
  onSubmit : Callback
}.

Definition DEFAULT_PIN_LENGTH : Z := 4.
Definition RESET_STATE_DELAY_MS : Z := 1500.

(** The destructuring defaults of the parameter list:
    [length = DEFAULT_PIN_LENGTH] and
    [resetStateDelayMs = RESET_STATE_DELAY_MS]. *)
Definition pinLength (p : Props) : Z :=
  match length p with Some n => n | None => DEFAULT_PIN_LENGTH end.

Definition resetDelayMs (p : Props) : Z :=
  match resetStateDelayMs p with Some n => n | None => RESET_STATE_DELAY_MS end.

(** [value.length], as a number.  The pad only ever types ASCII digits,
    for which the count of characters is the count of UTF-16 units. *)
Definition strlen (s : string) : Z := Z.of_nat (String.length s).

(** JavaScript truthiness of an optional boolean. *)
Definition truthy (b : option bool) : bool :=
  match b with Some true => true | _ => false end.

(** ** Observable calls *)

Inductive Call : Set :=
| OnChange (f : Callback) (newValue : string)
| OnSubmit (f : Callback) (pin : string)
| OnClearError (f : Callback)
| OnBiometricsClick (f : Callback)
| ClearIsPinAccepted
| VibrateOnError
| SetTimeout (id : nat) (ms : Z)
| ClearTimeout (id : nat)
| DisableSwipeToClose
| EnableSwipeToClose
| ClearScrollPatch
| ApplyScrollPatch.

(** [onClearError?.()] *)
Definition callOnClearError (p : Props) : list Call :=
  match onClearError p with Some f => [OnClearError f] | None => [] end.

(** ** Values derived in the body of the component *)

Definition isTypeError (p : Props) : bool :=
  match type p with Some error => true | _ => false end.

Definition isTypeSuccess (p : Props) : bool :=
  match type p with Some success => true | _ => false end.

Definition canRenderBackspace (p : Props) : bool := 0 <? strlen (value p).

Definition isSuccess (p : Props) : bool :=
  isTypeSuccess p || truthy (isPinAccepted p).

Definition isFull (p : Props) : bool := strlen (value p) =? pinLength p.

Definition arePinButtonsDisabled (p : Props) : bool :=
  isSuccess p || (isFull p && negb (isTypeError p)).

(** ** Handlers *)

(** [handleClick]; [char] is the value of the pressed button. *)
Definition handleClick (p : Props) (char : string) : list Call :=
  (if (strlen (value p) =? pinLength p) || (strlen (value p) =? 0)
   then callOnClearError p else [])
  ++
  (if strlen (value p) =? pinLength p
   then [OnChange (onChange p) char]
   else
     let newValue := (value p ++ char)%string in
     OnChange (onChange p) newValue ::
     (if strlen newValue =? pinLength p
      then [OnSubmit (onSubmit p) newValue] else [])).

(** [value.slice(0, -1)]: all but the last character. *)
Definition sliceInit (s : string) : string :=
  String.substring 0 (String.length s - 1) s.

(** [handleBackspaceClick] *)
Definition handleBackspaceClick (p : Props) : list Call :=
  callOnClearError p ++
  (if strlen (value p) =? 0 then [] else [OnChange (onChange p) (sliceInit (value p))]).

(** ** The button grid *)

(** The ten digit keys, in the order of the grid. *)
Inductive PinKey : Set := K1 | K2 | K3 | K4 | K5 | K6 | K7 | K8 | K9 | K0.

Definition keyValue (k : PinKey) : string :=
  match k with
  | K1 => "1" | K2 => "2" | K3 => "3" | K4 => "4" | K5 => "5"
  | K6 => "6" | K7 => "7" | K8 => "8" | K9 => "9" | K0 => "0"
  end.

Inductive PadButton : Set :=
| Digit (k : PinKey)
| Biometrics
| Backspace.

(** What a button of the grid is given as [onClick]. *)
Inductive Handler : Set :=
| HandleClick
| HandleBackspaceClick
| CallerBiometrics (f : Callback).

(** The props of one rendered [PinPadButton]. *)
Record ButtonProps : Set := {
  buttonValue : option string;
  isDisabled : bool;
  onClick : Handler
}.

(** The element the grid renders for a button; the biometric cell is a
    bare [<span />] when the caller passed no [onBiometricsClick]. *)
Definition renderButton (p : Props) (b : PadButton) : option ButtonProps :=
  match b with
  | Digit k =>
      Some {| buttonValue := Some (keyValue k);
              isDisabled := arePinButtonsDisabled p;
              onClick := HandleClick |}
  | Biometrics =>
      match onBiometricsClick p with
      | None => None
      | Some f =>
          Some {| buttonValue := None;
                  isDisabled := isSuccess p;
                  onClick := CallerBiometrics f |}
      end
  | Backspace =>
      Some {| buttonValue := None;
              isDisabled := negb (canRenderBackspace p) || isSuccess p;
              onClick := HandleBackspaceClick |}
  end.

Definition runHandler (p : Props) (h : Handler) (v : option string) : list Call :=
  match h with
  | HandleClick => handleClick p (match v with Some c => c | None => "" end)
  | HandleBackspaceClick => handleBackspaceClick p
  | CallerBiometrics f => [OnBiometricsClick f]
  end.

(** Modelled from the spec: [PinPadButton] (./PinPadButton) is not among
    the sources.  The spec has a disabled button take no input ("disable
    all digit/backspace input", "input fully gated"); an enabled one
    passes its [value] to [onClick]. *)
Definition pressButton (p : Props) (b : ButtonProps) : list Call :=
  if isDisabled b then [] else runHandler p (onClick b) (buttonValue b).

(** A press on a cell of the grid as rendered from [p]. *)
Definition press (p : Props) (b : PadButton) : list Call :=
  match renderButton p b with
  | Some btn => pressButton p btn
  | None => []
  end.

(** ** The window's timeouts *)

(** A pending [window.setTimeout]: its handle, the instant it is due, and
    the render whose variables its callback closes over. *)
Record Timer : Set := {
  timeoutId : nat;
  due : Z;
  scope : Props
}.

Record Window : Set := {
  now : Z;
  nextTimeoutId : nat;
  timers : list Timer
}.

(** [window.setTimeout(callback, ms)]: a fresh handle; a negative delay
    counts as none. *)
Definition setTimeout (p : Props) (ms : Z) (w : Window) : nat * Window :=
  (nextTimeoutId w,
   {| now := now w;
      nextTimeoutId := S (nextTimeoutId w);
      timers := timers w ++ [{| timeoutId := nextTimeoutId w;
                                due := now w + Z.max 0 ms;
                                scope := p |}] |}).

(** [window.clearTimeout(id)]: nothing happens for a handle that is not
    pending. *)
Definition clearTimeout (id : nat) (w : Window) : Window :=
  {| now := now w;
     nextTimeoutId := nextTimeoutId w;
     timers := filter (fun t => negb (Nat.eqb (timeoutId t) id)) (timers w) |}.

(** The callback handed to [setTimeout] by the error effect, with the
    variables of the render [p] that created it. *)
Definition errorTimeoutCallback (p : Props) : list Call :=
  (if strlen (value p) =? pinLength p then [OnChange (onChange p) ""] else [])
  ++ callOnClearError p.

(** ** Hooks *)

(** The dependency arrays, as tuples in the order of the source. *)

(** [[isPinAccepted, length, onChange, prevIsPinAccepted, value.length]] *)
Definition AcceptedDeps : Set := (option bool * Z * Callback * option bool * Z)%type.

(** [[length, onChange, onClearError, resetStateDelayMs, type, value.length]] *)
Definition ErrorDeps : Set :=
  (Z * Callback * option Callback * Z * option PinType * Z)%type.

Definition acceptedDepsOf (p : Props) (prevIsPinAccepted : option bool) : AcceptedDeps :=
  (isPinAccepted p, pinLength p, onChange p, prevIsPinAccepted, strlen (value p)).

Definition errorDepsOf (p : Props) : ErrorDeps :=
  (pinLength p, onChange p, onClearError p, resetDelayMs p, type p, strlen (value p)).

Definition AcceptedDeps_eq_dec (a b : AcceptedDeps) : {a = b} + {a <> b}.
Proof. repeat decide equality. Defined.

Definition ErrorDeps_eq_dec (a b : ErrorDeps) : {a = b} + {a <> b}.
Proof. repeat decide equality. Defined.

Definition ActiveDeps_eq_dec (a b : option bool) : {a = b} + {a <> b}.
Proof. repeat decide equality. Defined.

(** Modelled from the spec: [useEffect] (lib/teact) is not among the
    sources.  The spec has an effect run after the first render and
    again after each render in which a dependency changed identity,
    the cleanup of its previous run first ("cancel-then-possibly-rearm
    on dependency change"); [depsChanged] is that test, with no previous
    array standing for the first render. *)
Definition depsChanged {D : Set} (eq_dec : forall a b : D, {a = b} + {a <> b})
    (prev : option D) (cur : D) : bool :=
  match prev with
  | None => true
  | Some d => if eq_dec d cur then false else true
  end.

(** What the component instance remembers between renders. *)
Record Hooks : Set := {
  (** the render the [useLastCallback] handlers and the grid belong to *)
  rendered : Props;
  (** the ref of [usePrevious(isPinAccepted)] *)
  prevIsPinAcceptedRef : option bool;
  acceptedDeps : AcceptedDeps;
  scrollPatchDeps : option bool;
  errorDeps : ErrorDeps;
  (** the handle the cleanup of the error effect will clear, if it
      returned a cleanup *)
  errorCleanup : option nat;
  swipeDeps : option bool;
  (** whether the swipe effect returned a cleanup *)
  swipeCleanup : bool
}.

Record World : Set := {
  window : Window;
  (** [None] while the component is not mounted *)
  instance : option Hooks
}.

Definition initialWorld : World :=
  {| window := {| now := 0; nextTimeoutId := 1; timers := [] |};
     instance := None |}.

(** The body of the effect on [isPinAccepted] (lines 74-78). *)
Definition acceptedEffect (p : Props) (prevIsPinAccepted : option bool) : list Call :=
  if truthy prevIsPinAccepted && negb (truthy (isPinAccepted p))
     && (pinLength p =? strlen (value p))
  then [OnChange (onChange p) ""] else [].

(** The body of the error effect (lines 97-111): the cleanup it
    returns, the window after it, and its calls. *)
Definition errorEffect (p : Props) (w : Window) : option nat * Window * list Call :=
  if isTypeError p then
    let (id, w') := setTimeout p (resetDelayMs p) w in
    (Some id, w', [SetTimeout id (resetDelayMs p); VibrateOnError])
  else (None, w, []).

(** Running the cleanup the error effect returned, if any. *)
Definition runErrorCleanup (c : option nat) (w : Window) : Window * list Call :=
  match c with
  | Some id => (clearTimeout id w, [ClearTimeout id])
  | None => (w, [])
  end.

(** The body of the swipe effect (lines 113-121). *)
Definition swipeEffect (p : Props) : bool * list Call :=
  if truthy (isActive p) then (true, [DisableSwipeToClose]) else (false, []).

Definition runSwipeCleanup (c : bool) : list Call :=
  if c then [EnableSwipeToClose] else [].

Section PinPad.

(** [IS_DELEGATED_BOTTOM_SHEET] (util/windowEnvironment) is a constant
    of the build that the sources do not define. *)
Variable IS_DELEGATED_BOTTOM_SHEET : bool.

(** The body of the scroll-patch effect (lines 88-95). *)
Definition scrollPatchEffect (p : Props) (prevIsActive : option bool) : list Call :=
  if negb IS_DELEGATED_BOTTOM_SHEET then []
  else if truthy (isActive p) then [ClearScrollPatch]
  else if truthy prevIsActive then [ApplyScrollPatch]
  else [].

(** Modelled from the spec: [usePrevious] (hooks/usePrevious) is not
    among the sources.  The spec has it hand back "the previous render's
    accepted value", which is [undefined] on mount; [render] below
    stores the current value in its ref. *)
Definition usePrevious (h : option Hooks) : option bool :=
  match h with Some h0 => prevIsPinAcceptedRef h0 | None => None end.

(** The four effects that have dependencies, each as one hook call:
    what it does after a render with props [p] when the instance was
    [h] before ([None] on mount). *)
Definition useAcceptedEffect (p : Props) (h : option Hooks) : list Call :=
  let prevIsPinAccepted := usePrevious h in
  if depsChanged AcceptedDeps_eq_dec (option_map acceptedDeps h)
                 (acceptedDepsOf p prevIsPinAccepted)
  then acceptedEffect p prevIsPinAccepted else [].

(** Modelled from the spec: [useEffectWithPrevDeps]
    (hooks/useEffectWithPrevDeps) is not among the sources.  It is taken
    as [useEffect] whose callback receives the dependency array of the
    previous render, [isActive] being [undefined] there on mount; the
    spec names this effect only as a call out to the host container "on
    active/inactive transitions". *)
Definition useScrollPatchEffect (p : Props) (h : option Hooks) : list Call :=
  let prevIsActive :=
    match h with Some h0 => scrollPatchDeps h0 | None => None end in
  if depsChanged ActiveDeps_eq_dec (option_map scrollPatchDeps h) (isActive p)
  then scrollPatchEffect p prevIsActive else [].

(** The cleanup left by the previous run of the error effect. *)
Definition oldErrorCleanup (h : option Hooks) : option nat :=
  match h with Some h0 => errorCleanup h0 | None => None end.

Definition useErrorEffect (p : Props) (h : option Hooks) (w : Window)
  : option nat * Window * list Call :=
  if depsChanged ErrorDeps_eq_dec (option_map errorDeps h) (errorDepsOf p)
  then
    let (w1, c1) := runErrorCleanup (oldErrorCleanup h) w in
    let '(cleanup, w2, c2) := errorEffect p w1 in
    (cleanup, w2, c1 ++ c2)
  else (oldErrorCleanup h, w, []).

Definition useSwipeEffect (p : Props) (h : option Hooks) : bool * list Call :=
  let oldCleanup :=
    match h with Some h0 => swipeCleanup h0 | None => false end in
  if depsChanged ActiveDeps_eq_dec (option_map swipeDeps h) (isActive p)
  then
    let (cleanup, c2) := swipeEffect p in
    (cleanup, runSwipeCleanup oldCleanup ++ c2)
  else (oldCleanup, []).

(** One run of the component function followed by the effects it
    scheduled, in the order of the source. *)
Definition render (p : Props) (h : option Hooks) (w : Window)
  : Hooks * Window * list Call :=
  let callsA := useAcceptedEffect p h in
  let callsC := useScrollPatchEffect p h in
  let '(cleanupD, wD, callsD) := useErrorEffect p h w in
  let '(cleanupE, callsE) := useSwipeEffect p h in
  ({| rendered := p;
      prevIsPinAcceptedRef := isPinAccepted p;
      acceptedDeps := acceptedDepsOf p (usePrevious h);
      scrollPatchDeps := isActive p;
      errorDeps := errorDepsOf p;
      errorCleanup := cleanupD;
      swipeDeps := isActive p;
      swipeCleanup := cleanupE |},
   wD,
   callsA ++ callsC ++ callsD ++ callsE).

(** Unmounting runs the cleanup of every effect that returned one: the
    [clearIsPinAccepted] of the effect with no dependencies (lines
    80-85), the [clearTimeout] of the error effect, the
    [enableSwipeToClose] of the swipe effect. *)
Definition unmount (h : Hooks) (w : Window) : Window * list Call :=
  let (w1, c1) := runErrorCleanup (errorCleanup h) w in
  (w1, [ClearIsPinAccepted] ++ c1 ++ runSwipeCleanup (swipeCleanup h)).

Definition isDue (t : Z) (x : Timer) : bool := due x <=? t.

(** Letting [ms] milliseconds pass: every timeout that has become due
    runs its callback and is pending no more. *)
Definition advance (ms : Z) (w : Window) : Window * list Call :=
  let t := now w + Z.max 0 ms in
  ({| now := t;
      nextTimeoutId := nextTimeoutId w;
      timers := filter (fun x => negb (isDue t x)) (timers w) |},
   flat_map (fun x => errorTimeoutCallback (scope x))
            (filter (isDue t) (timers w))).

(** ** The state machine *)

Inductive Event : Set :=
| Render (p : Props)      (* the caller mounts or re-renders the pad *)
| Press (b : PadButton)   (* the user presses a cell of the grid *)
| Advance (ms : Z)        (* time passes *)
| Unmount.

Definition step (s : World) (e : Event) : World * list Call :=
  match e with
  | Render p =>
      let '(h, w, calls) := render p (instance s) (window s) in
      ({| window := w; instance := Some h |}, calls)
  | Press b =>
      match instance s with
      | Some h => (s, press (rendered h) b)
      | None => (s, [])
      end
  | Advance ms =>
      let (w, calls) := advance ms (window s) in
      ({| window := w; instance := instance s |}, calls)
  | Unmount =>
      match instance s with
      | Some h =>
          let (w, calls) := unmount h (window s) in
          ({| window := w; instance := None |}, calls)
      | None => (s, [])
      end
  end.

(** The world after a list of events, and the calls made on the way. *)
Fixpoint run (s : World) (es : list Event) : World * list Call :=
  match es with
  | [] => (s, [])
  | e :: es' =>
      let (s1, c1) := step s e in
      let (s2, c2) := run s1 es' in
      (s2, c1 ++ c2)
  end.

End PinPad.

(** ** Vocabulary of the properties *)

Definition isOnSubmit (c : Call) : bool :=
  match c with OnSubmit _ _ => true | _ => false end.

Definition isOnChange (c : Call) : bool :=
  match c with OnChange _ _ => true | _ => false end.

Definition isVibrateOnError (c : Call) : bool :=
  match c with VibrateOnError => true | _ => false end.

Definition isClearIsPinAccepted (c : Call) : bool :=
  match c with ClearIsPinAccepted => true | _ => false end.

(** The calls that touch the window's timeouts. *)
Definition isTimeoutCall (c : Call) : bool :=
  match c with SetTimeout _ _ | ClearTimeout _ => true | _ => false end.

(** The worlds the component can be in: those a list of events leads to
    from [initialWorld]. *)
Definition reachable (delegated : bool) (s : World) : Prop :=
  exists es, fst (run delegated initialWorld es) = s.

(** How many steps of a run satisfy [f], each step judged in the world
    it starts from. *)
Fixpoint countSteps (delegated : bool) (f : World -> Event -> bool)
    (s : World) (es : list Event) : nat :=
  match es with
  | [] => O
  | e :: es' =>
      ((if f s e then 1 else 0)
       + countSteps delegated f (fst (step delegated s e)) es')%nat
  end.

(** A digit press that is processed (the pad is mounted and the digit
    buttons are enabled) and takes the buffer from length N-1 to N. *)
Definition completesBuffer (s : World) (e : Event) : bool :=
  match e, instance s with
  | Press (Digit _), Some h =>
      negb (arePinButtonsDisabled (rendered h))
      && (strlen (value (rendered h)) + 1 =? pinLength (rendered h))
  | _, _ => false
  end.

(** A render at which [type] becomes ['error']: the pad is mounted in
    error mode, or re-rendered in it after a render that was not. *)
Definition entersError (s : World) (e : Event) : bool :=
  match e with
  | Render p =>
      isTypeError p
      && negb (match instance s with
               | Some h => isTypeError (rendered h)
               | None => false
               end)
  | _ => false
  end.

(** [p] with another buffer. *)
Definition withValue (p : Props) (v : string) : Props :=
  {| isActive := isActive p;
     type := type p;
     value := v;
     length := length p;
     resetStateDelayMs := resetStateDelayMs p;
     isPinAccepted := isPinAccepted p;
     onBiometricsClick := onBiometricsClick p;
     onChange := onChange p;
     onClearError := onClearError p;
     onSubmit := onSubmit p |}.

(** Modelled from the spec: the callers of the pad are not among the
    sources.  The spec has the buffer "owned by the caller; the control
    issues replace-whole-buffer requests": [honour] is the buffer of a
    caller that stores what each [onChange] hands it. *)
Definition honour (calls : list Call) (buffer : string) : string :=
  fold_left (fun v c => match c with OnChange _ v' => v' | _ => v end)
            calls buffer.

(** The props after the user has pressed the digit keys [ks] one after
    the other, the caller honouring every request in between. *)
Fixpoint typeKeys (p : Props) (ks : list PinKey) : Props :=
  match ks with
  | [] => p
  | k :: ks' =>
      typeKeys (withValue p (honour (press p (Digit k)) (value p))) ks'
  end.

(** The timeout [t] belongs to the instance [h]: it is the one the
    cleanup of the error effect will clear, it was created by a render
    that agrees with the last one on every dependency of that effect,
    and it is due no later than the reset delay from now. *)
Definition timerOf (s : World) (h : Hooks) (t : Timer) : Prop :=
  errorCleanup h = Some (timeoutId t)
  /\ errorDepsOf (scope t) = errorDepsOf (rendered h)
  /\ due t <= now (window s) + Z.max 0 (resetDelayMs (rendered h)).

(** The pending timeouts are at most the one the cleanup will clear. *)
Definition ownsTimers (h : option Hooks) (w : Window) : Prop :=
  timers w = []
  \/ exists h0 t, h = Some h0 /\ timers w = [t]
                  /\ errorCleanup h0 = Some (timeoutId t).

(** The invariant of the reachable worlds: the stored dependency arrays
    are those of the last render, the ref of [usePrevious] holds its
    [isPinAccepted], a cleanup of the error effect is registered exactly
    in error mode, and the only timeout that can be pending is the one
    of the instance. *)
Definition WF (s : World) : Prop :=
  match instance s with
  | None => timers (window s) = []
  | Some h =>
      errorDeps h = errorDepsOf (rendered h)
      /\ prevIsPinAcceptedRef h = isPinAccepted (rendered h)
      /\ (exists prev, acceptedDeps h = acceptedDepsOf (rendered h) prev)
      /\ (errorCleanup h = None <-> isTypeError (rendered h) = false)
      /\ (timers (window s) = []
          \/ exists t, timers (window s) = [t] /\ timerOf s h t)
  end.

(** What a completing press hands to [onSubmit]: the buffer with the
    pressed digit appended. *)
Definition submission (s : World) (e : Event) : list Call :=
  match e, instance s with
  | Press (Digit k), Some h =>
      if completesBuffer s e
      then [OnSubmit (onSubmit (rendered h))
                     (value (rendered h) ++ keyValue k)%string]
      else []
  | _, _ => []
  end.

(** An [onSubmit] call made in world [s] goes to the caller's current
    [onSubmit] and carries a string of the configured length. *)
Definition submitsFullPin (s : World) (c : Call) : Prop :=
  match c with
  | OnSubmit f pin =>
      match instance s with
      | Some h => f = onSubmit (rendered h)
                  /\ strlen pin = pinLength (rendered h)
      | None => False
      end
  | _ => True
  end.

(** A press of [k] that restarts the entry: the only buffer request is
    the pressed digit alone, and nothing is submitted. *)
Definition restartsEntry (p : Props) (k : PinKey) : Prop :=
  press p (Digit k) = callOnClearError p ++ [OnChange (onChange p) (keyValue k)]
  /\ honour (press p (Digit k)) (value p) = keyValue k
  /\ strlen (keyValue k) = 1.

Definition isRender (e : Event) : bool :=
  match e with Render _ => true | _ => false end.

Definition sameCallback (f g : option Callback) : bool :=
  match f, g with
  | Some a, Some b => Nat.eqb a b
  | None, None => true
  | _, _ => false
  end.

Definition sameType (a b : option PinType) : bool :=
  match a, b with
  | Some error, Some error | Some success, Some success | None, None => true
  | _, _ => false
  end.

(** The inputs of the error effect, compared one by one between two
    renders: the configured length, [onChange], [onClearError], the
    delay, [type] and the length of the buffer. *)
Definition sameErrorInputs (q p : Props) : bool :=
  (pinLength q =? pinLength p)
  && Nat.eqb (onChange q) (onChange p)
  && sameCallback (onClearError q) (onClearError p)
  && (resetDelayMs q =? resetDelayMs p)
  && sameType (type q) (type p)
  && (strlen (value q) =? strlen (value p)).

(** A render with props [p] is a re-render that leaves every input of
    the error effect as the previous render had it. *)
Definition keepsErrorInputs (s : World) (p : Props) : bool :=
  match instance s with
  | Some h => sameErrorInputs (rendered h) p
  | None => false
  end.

(** The timeout the error effect creates when it runs for [p] in
    window [w]. *)
Definition armedTimer (p : Props) (w : Window) : Timer :=
  {| timeoutId := nextTimeoutId w;
     due := now w + Z.max 0 (resetDelayMs p);
     scope := p |}.

(** The [clearTimeout] of a cleanup, as a list of calls. *)
Definition cancelCalls (c : option nat) : list Call :=
  match c with Some id => [ClearTimeout id] | None => [] end.

Definition isSetTimeout (c : Call) : bool :=
  match c with SetTimeout _ _ => true | _ => false end.

(** How many timeout callbacks the event [e] runs in world [s], and how
    many run over a list of events. *)
Definition callbacksRunBy (s : World) (e : Event) : nat :=
  match e with
  | Advance ms =>
      List.length (filter (isDue (now (window s) + Z.max 0 ms))
                          (timers (window s)))
  | _ => O
  end.

Fixpoint callbacksRun (delegated : bool) (s : World) (es : list Event) : nat :=
  match es with
  | [] => O
  | e :: es' =>
      (callbacksRunBy s e
       + callbacksRun delegated (fst (step delegated s e)) es')%nat
  end.

(** The reading of "haptic feedback exactly once per error episode"
    over a run from the initial world: as many [vibrateOnError] calls
    as renders at which [type] becomes ['error']. *)
Definition hapticOncePerEpisode (delegated : bool) (es : list Event) : Prop :=
  List.length (filter isVibrateOnError (snd (run delegated initialWorld es)))
  = countSteps delegated entersError initialWorld es.

(** What the timeout of the error effect does when it runs for the
    render [p]: the buffer is cleared when it is full, and the caller's
    [onClearError], when there is one, is called. *)
Definition autoClear (p : Props) : list Call :=
  (if isFull p then [OnChange (onChange p) ""] else [])
  ++ match onClearError p with Some f => [OnClearError f] | None => [] end.

(** The world [s] once [ms] milliseconds have passed and [pending] are
    the timeouts still pending. *)
Definition later (s : World) (ms : Z) (pending : list Timer) : World :=
  {| window := {| now := now (window s) + Z.max 0 ms;
                  nextTimeoutId := nextTimeoutId (window s);
                  timers := pending |};
     instance := instance s |}.

(** ** Sample pads and worlds *)

(** [p] with another [type], and with another [isPinAccepted]. *)
Definition withType (p : Props) (t : option PinType) : Props :=
  {| isActive := isActive p;
     type := t;
     value := value p;
     length := length p;
     resetStateDelayMs := resetStateDelayMs p;
     isPinAccepted := isPinAccepted p;
     onBiometricsClick := onBiometricsClick p;
     onChange := onChange p;
     onClearError := onClearError p;
     onSubmit := onSubmit p |}.

Definition withAccepted (p : Props) (a : option bool) : Props :=
  {| isActive := isActive p;
     type := type p;
     value := value p;
     length := length p;
     resetStateDelayMs := resetStateDelayMs p;
     isPinAccepted := a;
     onBiometricsClick := onBiometricsClick p;
     onChange := onChange p;
     onClearError := onClearError p;
     onSubmit := onSubmit p |}.

(** An active four-digit pad with an empty buffer and all callbacks. *)
Definition emptyPad : Props :=
  {| isActive := Some true;
     type := None;
     value := "";
     length := None;
     resetStateDelayMs := None;
     isPinAccepted := None;
     onBiometricsClick := Some 4%nat;
     onChange := 1%nat;
     onClearError := Some 2%nat;
     onSubmit := 3%nat |}.

(** The same pad showing an error on the full buffer "1234", and with
    the buffer accepted. *)
Definition errorPad : Props := withType (withValue emptyPad "1234") (Some error).

Definition acceptedPad : Props :=
  withAccepted (withValue emptyPad "1234") (Some true).

(** The hooks and the world after mounting each of them. *)
Definition hooksAfterMount (p : Props) : Hooks :=
  fst (fst (render false p None (window initialWorld))).

Definition emptyHooks : Hooks := Eval vm_compute in hooksAfterMount emptyPad.
Definition errorHooks : Hooks := Eval vm_compute in hooksAfterMount errorPad.
Definition acceptedHooks : Hooks :=
  Eval vm_compute in hooksAfterMount acceptedPad.

Definition emptyWorld : World :=
  Eval vm_compute in fst (run false initialWorld [Render emptyPad]).
Definition errorWorld : World :=
  Eval vm_compute in fst (run false initialWorld [Render errorPad]).
Definition acceptedWorld : World :=
  Eval vm_compute in fst (run false initialWorld [Render acceptedPad]).

(** The timeout pending in [errorWorld]. *)
Definition errorTimer : Timer :=
  {| timeoutId := 1; due := 1500; scope := errorPad |}.

(** ** The rest of the pad: dots, typing, host-container effects *)

(** One dot of [renderDots]: the class names [buildClassName] is given
    besides [styles.dot], each as the flag that switches it on. *)
Record Dot : Set := {
  dotFilled : bool;
  dotError : bool;
  dotSuccess : bool
}.

(** [renderDots] (lines 149-171): [Array.from({ length }, (_, i) => ...)]
    makes one dot for each index below [length], none when [length] is
    negative; dot [i] is filled when [i < value.length]. *)
Definition renderDots (p : Props) : list Dot :=
  map (fun i => {| dotFilled := Z.of_nat i <? strlen (value p);
                   dotError := isTypeError p;
                   dotSuccess := isSuccess p |})
      (seq 0 (Z.to_nat (pinLength p))).

(** The dot of a pad [p], filled or not. *)
Definition dotOf (p : Props) (filled : bool) : Dot :=
  {| dotFilled := filled; dotError := isTypeError p; dotSuccess := isSuccess p |}.

(** The digits of a list of keys, in the order pressed. *)
Fixpoint concatKeys (ks : list PinKey) : string :=
  match ks with
  | [] => ""
  | k :: ks' => (keyValue k ++ concatKeys ks')%string
  end.

(** The calls made while the user presses the digit keys [ks] one after
    the other, the caller honouring every request in between (the
    companion of [typeKeys]). *)
Fixpoint typeKeysCalls (p : Props) (ks : list PinKey) : list Call :=
  match ks with
  | [] => []
  | k :: ks' =>
      press p (Digit k)
      ++ typeKeysCalls (withValue p (honour (press p (Digit k)) (value p))) ks'
  end.

Definition isOnClearError (c : Call) : bool :=
  match c with OnClearError _ => true | _ => false end.

(** The calls that reach the caller of the pad. *)
Definition isCallerCallback (c : Call) : bool :=
  match c with
  | OnChange _ _ | OnSubmit _ _ | OnClearError _ | OnBiometricsClick _ => true
  | _ => false
  end.

Definition isDisableSwipe (c : Call) : bool :=
  match c with DisableSwipeToClose => true | _ => false end.

Definition isEnableSwipe (c : Call) : bool :=
  match c with EnableSwipeToClose => true | _ => false end.

Definition isScrollPatchCall (c : Call) : bool :=
  match c with ClearScrollPatch | ApplyScrollPatch => true | _ => false end.

(** Whether the last render of the pad, if it is mounted, had [isActive]
    truthy, and whether it had [isPinAccepted] truthy. *)
Definition wasActive (s : World) : bool :=
  match instance s with
  | Some h => truthy (isActive (rendered h))
  | None => false
  end.

Definition wasAccepted (s : World) : bool :=
  match instance s with
  | Some h => truthy (isPinAccepted (rendered h))
  | None => false
  end.

(** An unmount of a mounted pad. *)
Definition unmountsPad (s : World) (e : Event) : bool :=
  match e, instance s with
  | Unmount, Some _ => true
  | _, _ => false
  end.

(** The part of the invariant of the reachable worlds that concerns the
    two effects on [isActive]: their stored dependency is the [isActive]
    of the last render, and the swipe effect has a cleanup registered
    exactly when that was truthy. *)
Definition activeWF (s : World) : Prop :=
  match instance s with
  | None => True
  | Some h =>
      scrollPatchDeps h = isActive (rendered h)
      /\ swipeDeps h = isActive (rendered h)
      /\ swipeCleanup h = truthy (isActive (rendered h))
  end.

(** ** CardPros *)

Section CardPros.

(** [src/unnamed/part_000] is the component [CardPros].  Its [price] is
    a JavaScript number; what the component does with it is test its
    truthiness and hand it to [fromDecimal].  The number type, that
    test, [fromDecimal] (util/decimals), [TONCOIN.decimals] and
    [DEFAULT_FEE] (config) and [ApiMtwCardType] (api/types) are not
    among the sources and are taken as given; [balance] and the fee are
    bigints. *)
Variable Price : Set.
Variable priceTruthy : Price -> bool.
Variable fromDecimal : Price -> Z -> Z.
Variable TONCOIN_decimals : Z.
Variable DEFAULT_FEE : Z.
Variable ApiMtwCardType : Set.

(** [OwnProps] of [CardPros]. *)
Record CardProsProps : Type := {
  cardType : ApiMtwCardType;
  price : option Price;
  balance : option Z
}.

(** What the component can call: [startCardMinting({ type })]. *)
Inductive CardCall : Type :=
| StartCardMinting (t : ApiMtwCardType).

(** [price && balance ? fromDecimal(price, TONCOIN.decimals) + DEFAULT_FEE
    < balance : false]; a bigint is truthy unless it is [0n]. *)
Definition isEnoughBalance (p : CardProsProps) : bool :=
  match price p, balance p with
  | Some pr, Some b =>
      if priceTruthy pr && negb (b =? 0)
      then fromDecimal pr TONCOIN_decimals + DEFAULT_FEE <? b
      else false
  | _, _ => false
  end.

(** [handleSubmit] *)
Definition handleSubmit (p : CardProsProps) : list CardCall :=
  [StartCardMinting (cardType p)].

(** The props of the upgrade [Button]: [isDisabled] and what [onClick]
    would call, [None] standing for [undefined]. *)
Record UpgradeButton : Type := {
  upgradeDisabled : bool;
  upgradeOnClick : option (list CardCall)
}.

(** [{!!price && (<Button ... />)}]: no button without a truthy price. *)
Definition renderUpgradeButton (p : CardProsProps) : option UpgradeButton :=
  match price p with
  | Some pr =>
      if priceTruthy pr
      then Some {| upgradeDisabled := negb (isEnoughBalance p);
                   upgradeOnClick :=
                     if isEnoughBalance p then Some (handleSubmit p) else None |}
      else None
  | None => None
  end.

(** [p] with another balance. *)
Definition withBalance (p : CardProsProps) (b : option Z) : CardProsProps :=
  {| cardType := cardType p; price := price p; balance := b |}.

End CardPros.

Arguments cardType {Price ApiMtwCardType} _.
Arguments price {Price ApiMtwCardType} _.
Arguments balance {Price ApiMtwCardType} _.
Arguments StartCardMinting {ApiMtwCardType} t.
Arguments isEnoughBalance {Price} priceTruthy fromDecimal TONCOIN_decimals
  DEFAULT_FEE {ApiMtwCardType} p.
Arguments handleSubmit {Price ApiMtwCardType} p.
Arguments upgradeDisabled {ApiMtwCardType} _.
Arguments upgradeOnClick {ApiMtwCardType} _.
Arguments renderUpgradeButton {Price} priceTruthy fromDecimal TONCOIN_decimals
  DEFAULT_FEE {ApiMtwCardType} p.
Arguments withBalance {Price ApiMtwCardType} p b.

(** A sample setting for [CardPros]: prices in whole coins, nine
    decimals, a fee of 15000000 units, card types numbered. *)
Definition samplePriceTruthy (z : Z) : bool := negb (z =? 0).
Definition sampleFromDecimal (z decimals : Z) : Z := z * 10 ^ decimals.
Definition sampleCard (b : Z) : CardProsProps Z nat :=
  {| cardType := 1%nat; price := Some 5; balance := Some b |}.

(** ** C3 as worded *)

(** [p] with another configured [length]. *)
Definition withLength (p : Props) (n : option Z) : Props :=
  {| isActive := isActive p;
     type := type p;
     value := value p;
     length := n;
     resetStateDelayMs := resetStateDelayMs p;
     isPinAccepted := isPinAccepted p;
     onBiometricsClick := onBiometricsClick p;
     onChange := onChange p;
     onClearError := onClearError p;
     onSubmit := onSubmit p |}.

(** The inputs the claim lists for a re-render that must not re-arm:
    [type] is ['error'] in both renders and the buffer length,
    [onChange], [onClearError] and the delay are unchanged.  The
    configured length is not among them. *)
Definition sameListedInputs (q p : Props) : bool :=
  isTypeError q && isTypeError p
  && (strlen (value q) =? strlen (value p))
  && Nat.eqb (onChange q) (onChange p)
  && sameCallback (onClearError q) (onClearError p)
  && (resetDelayMs q =? resetDelayMs p).

(** The claim as worded, for a render with props [p] in world [s]: if
    the listed inputs are as the previous render had them, the render
    makes no [setTimeout] call. *)
Definition noRearmOnListedInputs (delegated : bool) (s : World) (p : Props)
  : Prop :=
  match instance s with
  | Some h =>
      sameListedInputs (rendered h) p = true ->
      filter isSetTimeout (snd (step delegated s (Render p))) = []
  | None => True
  end.

(** * Properties *)

(** ** Strings *)

Lemma strlen_append (a b : string) : strlen (a ++ b) = strlen a + strlen b.
Proof.
  unfold strlen. induction a as [|c a IH]; simpl String.length.
  - lia.
  - simpl in IH. lia.
Qed.

Lemma strlen_keyValue (k : PinKey) : strlen (keyValue k) = 1.
Proof. destruct k; reflexivity. Qed.

Lemma strlen_nonneg (s : string) : 0 <= strlen s.
Proof. unfold strlen. lia. Qed.

Lemma strlen_0 (s : string) : strlen s = 0 -> s = "".
Proof. destruct s; [reflexivity | unfold strlen; simpl; lia]. Qed.

(** ** The error effect *)

Lemma depsChanged_false {D : Set} (eq_dec : forall a b : D, {a = b} + {a <> b})
    (prev : option D) (cur : D) :
  depsChanged eq_dec prev cur = false <-> prev = Some cur.
Proof.
  unfold depsChanged. destruct prev as [d|].
  - destruct (eq_dec d cur) as [->|Hne]; split; intro H;
      try reflexivity; try discriminate.
    injection H as H. contradiction.
  - split; discriminate.
Qed.

Lemma isTypeError_deps (p q : Props) :
  errorDepsOf p = errorDepsOf q -> isTypeError p = isTypeError q.
Proof.
  unfold errorDepsOf, isTypeError. intro H. injection H as _ _ _ _ Ht _.
  now rewrite Ht.
Qed.

Lemma resetDelayMs_deps (p q : Props) :
  errorDepsOf p = errorDepsOf q -> resetDelayMs p = resetDelayMs q.
Proof. unfold errorDepsOf. intro H. now injection H. Qed.

Lemma errorTimeoutCallback_deps (p q : Props) :
  errorDepsOf p = errorDepsOf q ->
  errorTimeoutCallback p = errorTimeoutCallback q.
Proof.
  unfold errorDepsOf, errorTimeoutCallback, callOnClearError.
  intro H. injection H as Hl Hc Hce _ _ Hv.
  now rewrite Hl, Hc, Hce, Hv.
Qed.

Lemma clearTimeout_timers_nil (id : nat) (w : Window) :
  timers w = [] -> timers (clearTimeout id w) = [].
Proof. unfold clearTimeout; simpl. now intros ->. Qed.

Lemma clearTimeout_timers_own (id : nat) (w : Window) (t : Timer) :
  timers w = [t] -> timeoutId t = id -> timers (clearTimeout id w) = [].
Proof.
  unfold clearTimeout; simpl. intros -> <-. simpl.
  now rewrite Nat.eqb_refl.
Qed.

Lemma runErrorCleanup_clears (h : option Hooks) (w : Window) :
  ownsTimers h w ->
  timers (fst (runErrorCleanup (oldErrorCleanup h) w)) = []
  /\ now (fst (runErrorCleanup (oldErrorCleanup h) w)) = now w
  /\ nextTimeoutId (fst (runErrorCleanup (oldErrorCleanup h) w)) = nextTimeoutId w.
Proof.
  intros [Hnil | (h0 & t & -> & Ht & Hc)].
  - destruct (oldErrorCleanup h) as [id|]; simpl; repeat split; auto.
    now rewrite Hnil.
  - simpl. rewrite Hc. simpl. repeat split.
    now apply clearTimeout_timers_own with t.
Qed.

Lemma useErrorEffect_unchanged (p : Props) (h : option Hooks) (w : Window) :
  depsChanged ErrorDeps_eq_dec (option_map errorDeps h) (errorDepsOf p) = false ->
  useErrorEffect p h w = (oldErrorCleanup h, w, []).
Proof. unfold useErrorEffect. now intros ->. Qed.

Lemma useErrorEffect_changed (p : Props) (h : option Hooks) (w : Window) :
  depsChanged ErrorDeps_eq_dec (option_map errorDeps h) (errorDepsOf p) = true ->
  useErrorEffect p h w =
    let w1 := fst (runErrorCleanup (oldErrorCleanup h) w) in
    let c1 := snd (runErrorCleanup (oldErrorCleanup h) w) in
    if isTypeError p
    then (Some (nextTimeoutId w1),
          snd (setTimeout p (resetDelayMs p) w1),
          c1 ++ [SetTimeout (nextTimeoutId w1) (resetDelayMs p); VibrateOnError])
    else (None, w1, c1 ++ []).
Proof.
  unfold useErrorEffect. intros ->.
  destruct (runErrorCleanup _ w) as [w1 c1]. simpl.
  unfold errorEffect. destruct (isTypeError p); reflexivity.
Qed.

Lemma render_fields (d : bool) (p : Props) (h : option Hooks) (w : Window) :
  let h' := fst (fst (render d p h w)) in
  rendered h' = p
  /\ prevIsPinAcceptedRef h' = isPinAccepted p
  /\ acceptedDeps h' = acceptedDepsOf p (usePrevious h)
  /\ errorDeps h' = errorDepsOf p
  /\ errorCleanup h' = fst (fst (useErrorEffect p h w))
  /\ snd (fst (render d p h w)) = snd (fst (useErrorEffect p h w)).
Proof.
  unfold render.
  destruct (useErrorEffect p h w) as [[c w'] cs].
  destruct (useSwipeEffect p h) as [c' cs']. simpl. repeat split.
Qed.

Lemma render_calls (d : bool) (p : Props) (h : option Hooks) (w : Window) :
  snd (render d p h w) =
    useAcceptedEffect p h ++ useScrollPatchEffect d p h
    ++ snd (useErrorEffect p h w) ++ snd (useSwipeEffect p h).
Proof.
  unfold render.
  destruct (useErrorEffect p h w) as [[c w'] cs].
  destruct (useSwipeEffect p h) as [c' cs']. reflexivity.
Qed.

Lemma WF_owns (s : World) : WF s -> ownsTimers (instance s) (window s).
Proof.
  unfold WF, ownsTimers. destruct (instance s) as [h|].
  - intros (_ & _ & _ & _ & [Hn | (t & Ht & Hc & _)]); [now left|].
    right. now exists h, t.
  - now left.
Qed.

Lemma WF_render (d : bool) (s : World) (p : Props) :
  WF s -> WF (fst (step d s (Render p))).
Proof.
  intro HWF. pose proof (WF_owns s HWF) as Hown.
  simpl. pose proof (render_fields d p (instance s) (window s)) as HF.
  destruct (render d p (instance s) (window s)) as [[h' w'] calls].
  simpl in HF. destruct HF as (Hr & Hp & Ha & Hd & Hc & Hw).
  unfold WF; simpl. rewrite Hr, Hd, Hp, Ha, Hc, Hw.
  split; [reflexivity|]. split; [reflexivity|].
  split; [now exists (usePrevious (instance s))|].
  destruct (depsChanged ErrorDeps_eq_dec (option_map errorDeps (instance s))
              (errorDepsOf p)) eqn:Hch.
  - rewrite (useErrorEffect_changed _ _ _ Hch).
    destruct (runErrorCleanup_clears _ _ Hown) as (Ht & _ & _).
    cbv zeta. destruct (isTypeError p) eqn:Hte; simpl.
    + split; [split; discriminate|]. right.
      destruct (runErrorCleanup_clears _ _ Hown) as (_ & Hnow & _).
      rewrite Ht. simpl. eexists; split; [reflexivity|].
      split; [|split]; simpl.
      * now rewrite Hc, (useErrorEffect_changed _ _ _ Hch), Hte.
      * now rewrite Hr.
      * rewrite Hr, Hnow. lia.
    + split; [split; reflexivity|]. now left.
  - rewrite (useErrorEffect_unchanged _ _ _ Hch). simpl.
    apply depsChanged_false in Hch.
    unfold WF in HWF. destruct (instance s) as [h|]; [|discriminate].
    simpl in Hch. injection Hch as Hch.
    destruct HWF as (He & _ & _ & Hcl & Htm).
    rewrite He in Hch. simpl.
    rewrite <- (isTypeError_deps _ _ Hch). split; [exact Hcl|].
    destruct Htm as [Hn | (t & Ht & Hc1 & Hc2 & Hc3)]; [now left|].
    right. exists t. split; [exact Ht|]. split; [|split]; simpl.
    * now rewrite Hc, (useErrorEffect_unchanged p (Some h) (window s)) by
        (apply depsChanged_false; simpl; congruence).
    * rewrite Hr. congruence.
    * rewrite Hr, <- (resetDelayMs_deps _ _ Hch). exact Hc3.
Qed.

Lemma advance_timers (ms : Z) (w : Window) (t : Timer) :
  timers w = [t] ->
  (isDue (now w + Z.max 0 ms) t = true
   /\ advance ms w
      = ({| now := now w + Z.max 0 ms; nextTimeoutId := nextTimeoutId w;
            timers := [] |},
         errorTimeoutCallback (scope t)))
  \/ (isDue (now w + Z.max 0 ms) t = false
      /\ advance ms w
         = ({| now := now w + Z.max 0 ms; nextTimeoutId := nextTimeoutId w;
               timers := [t] |}, [])).
Proof.
  intro Ht. unfold advance. rewrite Ht. simpl.
  destruct (isDue (now w + Z.max 0 ms) t); simpl; [left | right];
    (split; [reflexivity|]); [now rewrite app_nil_r | reflexivity].
Qed.

Lemma advance_idle (ms : Z) (w : Window) :
  timers w = [] ->
  advance ms w
  = ({| now := now w + Z.max 0 ms; nextTimeoutId := nextTimeoutId w;
        timers := [] |}, []).
Proof. intro Ht. unfold advance. now rewrite Ht. Qed.

Lemma WF_advance (d : bool) (s : World) (ms : Z) :
  WF s -> WF (fst (step d s (Advance ms))).
Proof.
  intro HWF. unfold step.
  assert (Hcases : timers (window s) = []
                   \/ exists t, timers (window s) = [t]).
  { unfold WF in HWF. destruct (instance s).
    - destruct HWF as (_ & _ & _ & _ & [H | (t & H & _)]); eauto.
    - now left. }
  destruct Hcases as [Hn | (t & Ht)].
  - rewrite (advance_idle _ _ Hn). unfold WF in *; simpl.
    destruct (instance s); [|reflexivity].
    destruct HWF as (H1 & H2 & H3 & H4 & _). repeat split; auto; apply H4.
  - unfold WF in *.
    destruct (instance s) as [h|] eqn:Hi; [|congruence].
    destruct HWF as (H1 & H2 & H3 & H4 & H5).
    destruct (advance_timers ms _ _ Ht) as [(_ & ->) | (_ & ->)]; simpl;
      (split; [exact H1|]); (split; [exact H2|]);
      (split; [exact H3|]); (split; [exact H4|]).
    + now left.
    + destruct H5 as [H5 | (t' & Ht' & H5 & H6 & H7)]; [congruence|].
      right. exists t'. split; [congruence|].
      split; [exact H5|]. split; [exact H6|]. simpl. lia.
Qed.

Lemma unmount_spec (h : Hooks) (w : Window) :
  ownsTimers (Some h) w ->
  timers (fst (unmount h w)) = []
  /\ snd (unmount h w)
     = ClearIsPinAccepted
       :: snd (runErrorCleanup (errorCleanup h) w)
       ++ runSwipeCleanup (swipeCleanup h).
Proof.
  intro Hown. unfold unmount.
  pose proof (runErrorCleanup_clears (Some h) w Hown) as (Ht & _).
  simpl in Ht. destruct (runErrorCleanup (errorCleanup h) w) as [w1 c1].
  simpl in *. now split.
Qed.

Lemma WF_step (d : bool) (s : World) (e : Event) :
  WF s -> WF (fst (step d s e)).
Proof.
  intro HWF. destruct e as [p | b | ms |].
  - now apply WF_render.
  - simpl. now destruct (instance s).
  - now apply WF_advance.
  - simpl. destruct (instance s) as [h|] eqn:Hi.
    + pose proof (WF_owns s HWF) as Hown. rewrite Hi in Hown.
      destruct (unmount_spec h _ Hown) as (Ht & _).
      destruct (unmount h (window s)) as [w c]. exact Ht.
    + exact HWF.
Qed.

Lemma WF_initial : WF initialWorld.
Proof. reflexivity. Qed.

Lemma run_app (d : bool) (s : World) (es1 es2 : list Event) :
  run d s (es1 ++ es2)
  = (fst (run d (fst (run d s es1)) es2),
     snd (run d s es1) ++ snd (run d (fst (run d s es1)) es2)).
Proof.
  revert s. induction es1 as [|e es1 IH]; intro s; simpl.
  - now destruct (run d s es2).
  - destruct (step d s e) as [s1 c1]. rewrite IH.
    destruct (run d s1 es1) as [s2 c2]. simpl.
    now rewrite app_assoc.
Qed.

Lemma WF_run (d : bool) (es : list Event) (s : World) :
  WF s -> WF (fst (run d s es)).
Proof.
  revert s. induction es as [|e es IH]; intros s HWF; simpl; [exact HWF|].
  pose proof (WF_step d s e HWF) as H1.
  destruct (step d s e) as [s1 c1]. specialize (IH s1 H1).
  now destruct (run d s1 es).
Qed.

Lemma reachable_WF (d : bool) (s : World) : reachable d s -> WF s.
Proof. intros [es <-]. apply WF_run, WF_initial. Qed.

Lemma reachable_step (d : bool) (s : World) (e : Event) :
  reachable d s -> reachable d (fst (step d s e)).
Proof.
  intros [es <-]. exists (es ++ [e]). rewrite run_app. simpl.
  destruct (step d (fst (run d initialWorld es)) e). reflexivity.
Qed.

(** ** Which calls each part of the component can make *)

Ltac break_if :=
  match goal with
  | |- context [if ?b then _ else _] => destruct b eqn:?
  | |- context [match ?x with _ => _ end] => destruct x eqn:?
  end.

Lemma filter_nil_iff {A : Type} (f : A -> bool) (l : list A) :
  filter f l = [] <-> Forall (fun x => f x = false) l.
Proof.
  induction l as [|a l IH]; simpl.
  - split; auto.
  - destruct (f a) eqn:Ha; split; intro H.
    + discriminate.
    + inversion H; congruence.
    + constructor; [exact Ha | now apply IH].
    + inversion H; now apply IH.
Qed.

Lemma filter_flat_map_nil {A B : Type} (f : B -> bool) (g : A -> list B)
    (l : list A) :
  (forall a, filter f (g a) = []) -> filter f (flat_map g l) = [].
Proof.
  intro H. induction l as [|a l IH]; simpl; [reflexivity|].
  now rewrite filter_app, H, IH.
Qed.

Lemma errorTimeoutCallback_no_submit (p : Props) :
  filter isOnSubmit (errorTimeoutCallback p) = [].
Proof.
  unfold errorTimeoutCallback, callOnClearError.
  repeat break_if; reflexivity.
Qed.

Lemma render_no_submit (d : bool) (p : Props) (h : option Hooks) (w : Window) :
  filter isOnSubmit (snd (render d p h w)) = [].
Proof.
  rewrite render_calls, !filter_app.
  assert (HA : filter isOnSubmit (useAcceptedEffect p h) = []).
  { unfold useAcceptedEffect, acceptedEffect. repeat break_if; reflexivity. }
  assert (HC : filter isOnSubmit (useScrollPatchEffect d p h) = []).
  { unfold useScrollPatchEffect, scrollPatchEffect.
    repeat break_if; reflexivity. }
  assert (HD : filter isOnSubmit (snd (useErrorEffect p h w)) = []).
  { destruct (depsChanged ErrorDeps_eq_dec (option_map errorDeps h)
                (errorDepsOf p)) eqn:Hch.
    - rewrite (useErrorEffect_changed _ _ _ Hch). unfold runErrorCleanup.
      destruct (oldErrorCleanup h), (isTypeError p); reflexivity.
    - now rewrite (useErrorEffect_unchanged _ _ _ Hch). }
  assert (HE : filter isOnSubmit (snd (useSwipeEffect p h)) = []).
  { unfold useSwipeEffect, swipeEffect, runSwipeCleanup.
    repeat break_if; reflexivity. }
  now rewrite HA, HC, HD, HE.
Qed.

Lemma advance_no_submit (ms : Z) (w : Window) :
  filter isOnSubmit (snd (advance ms w)) = [].
Proof.
  unfold advance; simpl.
  apply filter_flat_map_nil. intro t. apply errorTimeoutCallback_no_submit.
Qed.

Lemma unmount_no_submit (h : Hooks) (w : Window) :
  filter isOnSubmit (snd (unmount h w)) = [].
Proof.
  unfold unmount, runErrorCleanup, runSwipeCleanup.
  destruct (errorCleanup h), (swipeCleanup h); reflexivity.
Qed.

Lemma filter_callOnClearError_submit (p : Props) (l : list Call) :
  filter isOnSubmit (callOnClearError p ++ l) = filter isOnSubmit l.
Proof. unfold callOnClearError. now destruct (onClearError p). Qed.

(** [handleClick] on a one-character [char], case by case. *)
Lemma handleClick_full (p : Props) (char : string) :
  strlen (value p) = pinLength p ->
  handleClick p char = callOnClearError p ++ [OnChange (onChange p) char].
Proof.
  intro H. unfold handleClick. rewrite H, Z.eqb_refl. reflexivity.
Qed.

Lemma handleClick_completing (p : Props) (k : PinKey) :
  strlen (value p) + 1 = pinLength p ->
  handleClick p (keyValue k)
  = (if strlen (value p) =? 0 then callOnClearError p else [])
    ++ [OnChange (onChange p) (value p ++ keyValue k)%string;
        OnSubmit (onSubmit p) (value p ++ keyValue k)%string].
Proof.
  intro H. unfold handleClick.
  assert (Hne : (strlen (value p) =? pinLength p) = false)
    by (apply Z.eqb_neq; lia).
  rewrite Hne. cbv zeta. rewrite strlen_append, strlen_keyValue.
  rewrite (proj2 (Z.eqb_eq _ _) H). reflexivity.
Qed.

Lemma handleClick_partial (p : Props) (k : PinKey) :
  strlen (value p) <> pinLength p ->
  strlen (value p) + 1 <> pinLength p ->
  handleClick p (keyValue k)
  = (if strlen (value p) =? 0 then callOnClearError p else [])
    ++ [OnChange (onChange p) (value p ++ keyValue k)%string].
Proof.
  intros H1 H2. unfold handleClick.
  rewrite (proj2 (Z.eqb_neq _ _) H1). cbv zeta.
  rewrite strlen_append, strlen_keyValue.
  rewrite (proj2 (Z.eqb_neq _ _) H2). reflexivity.
Qed.

Lemma filter_submit_if_clear (b : bool) (p : Props) (l : list Call) :
  filter isOnSubmit ((if b then callOnClearError p else []) ++ l)
  = filter isOnSubmit l.
Proof.
  destruct b; [apply filter_callOnClearError_submit | reflexivity].
Qed.

Lemma step_submission (d : bool) (s : World) (e : Event) :
  filter isOnSubmit (snd (step d s e)) = submission s e.
Proof.
  destruct e as [p | b | ms |]; unfold submission.
  - unfold step. pose proof (render_no_submit d p (instance s) (window s)) as H.
    now destruct (render d p (instance s) (window s)) as [[h w] c].
  - simpl. destruct (instance s) as [h|] eqn:Hi.
    2:{ now destruct b. }
    simpl. destruct b as [k | |].
    + unfold press, pressButton; simpl.
      destruct (arePinButtonsDisabled (rendered h)) eqn:Hdis; simpl;
        [reflexivity|].
      destruct (Z.eqb_spec (strlen (value (rendered h)) + 1)
                           (pinLength (rendered h))) as [Heq | Hne].
      * rewrite (handleClick_completing _ _ Heq), filter_submit_if_clear.
        reflexivity.
      * destruct (Z.eq_dec (strlen (value (rendered h)))
                           (pinLength (rendered h))) as [Hf | Hnf].
        -- rewrite (handleClick_full _ _ Hf),
             filter_callOnClearError_submit. reflexivity.
        -- rewrite (handleClick_partial _ _ Hnf Hne),
             filter_submit_if_clear. reflexivity.
    + unfold press, pressButton; simpl.
      destruct (onBiometricsClick (rendered h)); simpl; [|reflexivity].
      now destruct (isSuccess (rendered h)).
    + unfold press, pressButton; simpl.
      destruct (negb (canRenderBackspace (rendered h)) || isSuccess (rendered h));
        [reflexivity|].
      unfold handleBackspaceClick.
      rewrite filter_callOnClearError_submit. now break_if.
  - unfold step. pose proof (advance_no_submit ms (window s)) as H.
    now destruct (advance ms (window s)).
  - unfold step. destruct (instance s) as [h|]; [|reflexivity].
    pose proof (unmount_no_submit h (window s)) as H.
    now destruct (unmount h (window s)).
Qed.

Lemma run_cons (d : bool) (s : World) (e : Event) (es : list Event) :
  run d s (e :: es)
  = (fst (run d (fst (step d s e)) es),
     snd (step d s e) ++ snd (run d (fst (step d s e)) es)).
Proof.
  cbn [run]. destruct (step d s e) as [s1 c1]. cbn [fst snd].
  now destruct (run d s1 es).
Qed.

Lemma submission_length (s : World) (e : Event) :
  List.length (submission s e) = if completesBuffer s e then 1%nat else 0%nat.
Proof.
  unfold submission, completesBuffer.
  destruct e as [p | [k | |] | ms |]; try reflexivity.
  destruct (instance s) as [h|]; [|reflexivity].
  now destruct (negb _ && _).
Qed.

Lemma submission_full_pin (s : World) (e : Event) :
  Forall (submitsFullPin s) (submission s e).
Proof.
  unfold submission. destruct e as [p | [k | |] | ms |]; try constructor.
  destruct (instance s) as [h|] eqn:Hi; [|constructor].
  destruct (completesBuffer s (Press (Digit k))) eqn:Hc; constructor;
    [|constructor].
  unfold submitsFullPin. rewrite Hi. split; [reflexivity|].
  unfold completesBuffer in Hc. rewrite Hi in Hc.
  apply andb_prop in Hc as [_ Hc]. apply Z.eqb_eq in Hc.
  rewrite strlen_append, strlen_keyValue. exact Hc.
Qed.

Lemma Forall_submitsFullPin (s : World) (l : list Call) :
  Forall (submitsFullPin s) (filter isOnSubmit l) ->
  Forall (submitsFullPin s) l.
Proof.
  induction l as [|c l IH]; simpl; intro H; [constructor|].
  destruct (isOnSubmit c) eqn:Hc.
  - inversion H; subst. constructor; auto.
  - constructor; [|auto]. destruct c; try exact I. discriminate.
Qed.

(** C1.  In every world and for every event, the [onSubmit] calls of
    the step are exactly those of [submission]: one call, with the
    buffer extended by the pressed digit, when the event is a processed
    digit press that takes the buffer from length N-1 to N, and none
    otherwise.  Every [onSubmit] call carries a string of the configured
    length N; a render never calls [onSubmit], whatever the buffer; and
    over any run the number of [onSubmit] calls is the number of steps
    that complete the buffer. *)
Theorem onSubmit_once_per_completed_buffer
    (delegated : bool) (s : World) (e : Event) (es : list Event) :
  filter isOnSubmit (snd (step delegated s e)) = submission s e
  /\ List.length (submission s e)
     = (if completesBuffer s e then 1%nat else 0%nat)
  /\ Forall (submitsFullPin s) (snd (step delegated s e))
  /\ (forall p, filter isOnSubmit (snd (step delegated s (Render p))) = [])
  /\ List.length (filter isOnSubmit (snd (run delegated s es)))
     = countSteps delegated completesBuffer s es.
Proof.
  split; [apply step_submission|].
  split; [apply submission_length|].
  split.
  { apply Forall_submitsFullPin. rewrite step_submission.
    apply submission_full_pin. }
  split.
  { intro p. now rewrite step_submission. }
  revert s. induction es as [|e' es IH]; intro s; [reflexivity|].
  rewrite run_cons. cbn [snd countSteps].
  rewrite filter_app, length_app, step_submission, submission_length, IH.
  reflexivity.
Qed.

(** ** The buffer under a caller that honours every request *)

Lemma honour_app (l1 l2 : list Call) (v : string) :
  honour (l1 ++ l2) v = honour l2 (honour l1 v).
Proof. unfold honour. apply fold_left_app. Qed.

Lemma honour_clear (b : bool) (p : Props) (v : string) :
  honour (if b then callOnClearError p else []) v = v.
Proof.
  unfold callOnClearError. destruct b; [|reflexivity].
  now destruct (onClearError p).
Qed.

Lemma press_digit_enabled (p : Props) (k : PinKey) :
  arePinButtonsDisabled p = false ->
  press p (Digit k) = handleClick p (keyValue k).
Proof. intro H. unfold press, pressButton; simpl. now rewrite H. Qed.

Lemma press_digit_disabled (p : Props) (k : PinKey) :
  arePinButtonsDisabled p = true -> press p (Digit k) = [].
Proof. intro H. unfold press, pressButton; simpl. now rewrite H. Qed.

Lemma restart_when_full (p : Props) (k : PinKey) :
  isFull p = true -> arePinButtonsDisabled p = false -> restartsEntry p k.
Proof.
  unfold isFull, restartsEntry. intros Hf Hd. apply Z.eqb_eq in Hf.
  rewrite (press_digit_enabled _ _ Hd), (handleClick_full _ _ Hf).
  split; [reflexivity|]. split; [|apply strlen_keyValue].
  rewrite honour_app. reflexivity.
Qed.

Lemma honour_press_digit_bound (p : Props) (k : PinKey) :
  1 <= pinLength p \/ isTypeError p = false ->
  strlen (value p) <= pinLength p ->
  strlen (honour (press p (Digit k)) (value p)) <= pinLength p.
Proof.
  intros HN Hlen.
  destruct (arePinButtonsDisabled p) eqn:Hd.
  - now rewrite (press_digit_disabled _ _ Hd).
  - rewrite (press_digit_enabled _ _ Hd).
    destruct (Z.eq_dec (strlen (value p)) (pinLength p)) as [Hf | Hnf].
    + rewrite (handleClick_full _ _ Hf), honour_app. simpl.
      rewrite strlen_keyValue.
      destruct HN as [HN | He]; [exact HN|].
      unfold arePinButtonsDisabled, isFull in Hd.
      rewrite (proj2 (Z.eqb_eq _ _) Hf), He, orb_true_r in Hd.
      discriminate.
    + destruct (Z.eq_dec (strlen (value p) + 1) (pinLength p)) as [Hc | Hnc].
      * rewrite (handleClick_completing _ _ Hc), honour_app. simpl.
        rewrite strlen_append, strlen_keyValue. lia.
      * rewrite (handleClick_partial _ _ Hnf Hnc), honour_app. simpl.
        rewrite strlen_append, strlen_keyValue. lia.
Qed.

Lemma typeKeys_bound (p : Props) (ks : list PinKey) :
  1 <= pinLength p \/ isTypeError p = false ->
  strlen (value p) <= pinLength p ->
  strlen (value (typeKeys p ks)) <= pinLength p.
Proof.
  revert p. induction ks as [|k ks IH]; intros p HN Hlen; simpl;
    [exact Hlen|].
  pose proof (honour_press_digit_bound p k HN Hlen) as Hb.
  apply (IH (withValue p (honour (press p (Digit k)) (value p))));
    [exact HN | exact Hb].
Qed.

(** C2.  Let the buffer start no longer than the configured length N,
    and let N be at least 1 (or, for a pad of length 0, [type] not be
    ['error']).  Then after any sequence [ks] of digit presses, each
    request honoured by the caller, the buffer is still no longer than
    N; and a further press of any digit [k] there either finds the
    buffer not full, or finds the digit buttons disabled (the press is
    not processed), or restarts the entry: the one buffer request is the
    pressed digit alone, a buffer of length 1, and [onSubmit] is not
    called. *)
Theorem buffer_never_exceeds_length
    (p : Props) (ks : list PinKey) (k : PinKey) :
  1 <= pinLength p \/ isTypeError p = false ->
  strlen (value p) <= pinLength p ->
  strlen (value (typeKeys p ks)) <= pinLength p
  /\ (isFull (typeKeys p ks) = false
      \/ arePinButtonsDisabled (typeKeys p ks) = true
      \/ restartsEntry (typeKeys p ks) k).
Proof.
  intros HN Hlen. split; [now apply typeKeys_bound|].
  destruct (isFull (typeKeys p ks)) eqn:Hf; [|now left].
  destruct (arePinButtonsDisabled (typeKeys p ks)) eqn:Hd; [now right; left|].
  right; right. now apply restart_when_full.
Qed.

(** ** The error effect in a reachable world *)

Lemma sameCallback_eq (f g : option Callback) :
  sameCallback f g = true <-> f = g.
Proof.
  destruct f as [a|], g as [b|]; simpl; split; intro H;
    try discriminate; try reflexivity.
  - apply Nat.eqb_eq in H. now subst.
  - injection H as ->. apply Nat.eqb_refl.
Qed.

Lemma sameType_eq (a b : option PinType) : sameType a b = true <-> a = b.
Proof.
  destruct a as [[|]|], b as [[|]|]; simpl; split; intro H;
    try discriminate; reflexivity.
Qed.

Lemma sameErrorInputs_deps (q p : Props) :
  sameErrorInputs q p = true <-> errorDepsOf q = errorDepsOf p.
Proof.
  unfold sameErrorInputs, errorDepsOf. rewrite !andb_true_iff.
  rewrite !Z.eqb_eq, Nat.eqb_eq, sameCallback_eq, sameType_eq.
  split.
  - intros (((((-> & ->) & ->) & ->) & ->) & ->). reflexivity.
  - intro H. injection H as -> -> -> -> -> ->. repeat split.
Qed.

Lemma depsChanged_keeps (s : World) (p : Props) :
  WF s ->
  depsChanged ErrorDeps_eq_dec (option_map errorDeps (instance s))
              (errorDepsOf p)
  = negb (keepsErrorInputs s p).
Proof.
  unfold WF, keepsErrorInputs. destruct (instance s) as [h|]; [|reflexivity].
  intros (He & _). simpl. rewrite He.
  destruct (ErrorDeps_eq_dec (errorDepsOf (rendered h)) (errorDepsOf p))
    as [Heq | Hne].
  - apply sameErrorInputs_deps in Heq. now rewrite Heq.
  - destruct (sameErrorInputs (rendered h) p) eqn:Hs; [|reflexivity].
    apply sameErrorInputs_deps in Hs. contradiction.
Qed.

Lemma runErrorCleanup_calls (c : option nat) (w : Window) :
  snd (runErrorCleanup c w) = cancelCalls c.
Proof. now destruct c. Qed.

(** What the error effect does after a render in a well-formed world. *)
Lemma useErrorEffect_WF (s : World) (p : Props) :
  WF s ->
  useErrorEffect p (instance s) (window s)
  = if keepsErrorInputs s p
    then (oldErrorCleanup (instance s), window s, [])
    else if isTypeError p
    then (Some (nextTimeoutId (window s)),
          {| now := now (window s);
             nextTimeoutId := S (nextTimeoutId (window s));
             timers := [armedTimer p (window s)] |},
          cancelCalls (oldErrorCleanup (instance s))
          ++ [SetTimeout (nextTimeoutId (window s)) (resetDelayMs p);
              VibrateOnError])
    else (None,
          {| now := now (window s);
             nextTimeoutId := nextTimeoutId (window s);
             timers := [] |},
          cancelCalls (oldErrorCleanup (instance s))).
Proof.
  intro HWF. pose proof (depsChanged_keeps s p HWF) as Hch.
  destruct (keepsErrorInputs s p); simpl in Hch.
  - now apply useErrorEffect_unchanged.
  - rewrite (useErrorEffect_changed _ _ _ Hch). cbv zeta.
    destruct (runErrorCleanup_clears _ _ (WF_owns s HWF)) as (Ht & Hn & Hi).
    rewrite runErrorCleanup_calls.
    destruct (runErrorCleanup (oldErrorCleanup (instance s)) (window s))
      as [w1 c1]. simpl in *.
    destruct (isTypeError p).
    + unfold setTimeout, armedTimer. simpl. now rewrite Ht, Hn, Hi.
    + rewrite app_nil_r. f_equal. f_equal.
      destruct w1; simpl in *. now subst.
Qed.

Lemma render_other_calls (f : Call -> bool) (d : bool) (p : Props)
    (h : option Hooks) (w : Window) :
  (forall g v, f (OnChange g v) = false) ->
  f DisableSwipeToClose = false -> f EnableSwipeToClose = false ->
  f ClearScrollPatch = false -> f ApplyScrollPatch = false ->
  filter f (snd (render d p h w)) = filter f (snd (useErrorEffect p h w)).
Proof.
  intros H1 H2 H3 H4 H5. rewrite render_calls, !filter_app.
  assert (HA : filter f (useAcceptedEffect p h) = []).
  { unfold useAcceptedEffect, acceptedEffect.
    repeat break_if; simpl; now rewrite ?H1. }
  assert (HC : filter f (useScrollPatchEffect d p h) = []).
  { unfold useScrollPatchEffect, scrollPatchEffect.
    repeat break_if; simpl; now rewrite ?H4, ?H5. }
  assert (HE : filter f (snd (useSwipeEffect p h)) = []).
  { unfold useSwipeEffect, swipeEffect, runSwipeCleanup.
    repeat break_if; simpl; now rewrite ?H2, ?H3. }
  rewrite HA, HC, HE, app_nil_r. reflexivity.
Qed.

Lemma step_render (d : bool) (s : World) (p : Props) :
  window (fst (step d s (Render p)))
  = snd (fst (useErrorEffect p (instance s) (window s)))
  /\ snd (step d s (Render p)) = snd (render d p (instance s) (window s))
  /\ exists h', instance (fst (step d s (Render p))) = Some h'
                /\ h' = fst (fst (render d p (instance s) (window s))).
Proof.
  unfold step.
  pose proof (render_fields d p (instance s) (window s)) as HF.
  destruct (render d p (instance s) (window s)) as [[h' w'] calls].
  simpl in *. destruct HF as (_ & _ & _ & _ & _ & Hw).
  repeat split; [exact Hw|]. now exists h'.
Qed.

Lemma filter_timeout_cancel (c : option nat) :
  filter isTimeoutCall (cancelCalls c) = cancelCalls c.
Proof. now destruct c. Qed.

Lemma WF_pending (s : World) :
  WF s ->
  (List.length (timers (window s)) <= 1)%nat
  /\ Forall (fun t => oldErrorCleanup (instance s) = Some (timeoutId t))
            (timers (window s)).
Proof.
  intro HWF. destruct (WF_owns s HWF) as [Hn | (h & t & Hi & Ht & Hc)].
  - rewrite Hn. split; [simpl; lia | constructor].
  - rewrite Ht, Hi. split; [simpl; lia|]. now repeat constructor.
Qed.

Lemma step_advance_WF (d : bool) (s : World) (ms : Z) :
  WF s ->
  (timers (window s) = []
   /\ step d s (Advance ms)
      = ({| window := {| now := now (window s) + Z.max 0 ms;
                         nextTimeoutId := nextTimeoutId (window s);
                         timers := [] |};
            instance := instance s |}, []))
  \/ exists t, timers (window s) = [t]
     /\ step d s (Advance ms)
        = if due t <=? now (window s) + Z.max 0 ms
          then ({| window := {| now := now (window s) + Z.max 0 ms;
                                nextTimeoutId := nextTimeoutId (window s);
                                timers := [] |};
                   instance := instance s |},
                errorTimeoutCallback (scope t))
          else ({| window := {| now := now (window s) + Z.max 0 ms;
                                nextTimeoutId := nextTimeoutId (window s);
                                timers := [t] |};
                   instance := instance s |}, []).
Proof.
  intro HWF. unfold step.
  destruct (WF_owns s HWF) as [Hn | (h & t & Hi & Ht & Hc)].
  - left. split; [exact Hn|]. now rewrite (advance_idle _ _ Hn).
  - right. exists t. split; [exact Ht|].
    destruct (advance_timers ms _ _ Ht) as [(Hd & ->) | (Hd & ->)];
      unfold isDue in Hd; now rewrite Hd.
Qed.

Lemma render_timeout_calls (d : bool) (s : World) (p : Props) :
  WF s ->
  filter isTimeoutCall (snd (step d s (Render p)))
  = (if keepsErrorInputs s p then []
     else cancelCalls (oldErrorCleanup (instance s))
          ++ (if isTypeError p
              then [SetTimeout (nextTimeoutId (window s)) (resetDelayMs p)]
              else []))
  /\ timers (window (fst (step d s (Render p))))
     = (if keepsErrorInputs s p then timers (window s)
        else if isTypeError p then [armedTimer p (window s)] else []).
Proof.
  intro HWF. destruct (step_render d s p) as (Hw & Hc & _).
  rewrite Hw, Hc, render_other_calls by reflexivity.
  rewrite (useErrorEffect_WF s p HWF). split.
  - destruct (keepsErrorInputs s p); [reflexivity|].
    destruct (isTypeError p); simpl snd;
      rewrite ?filter_app, ?app_nil_r, filter_timeout_cancel; reflexivity.
  - destruct (keepsErrorInputs s p); [reflexivity|].
    now destruct (isTypeError p).
Qed.

Lemma filter_setTimeout_cancel (c : option nat) (l : list Call) :
  filter isSetTimeout (cancelCalls c ++ l) = filter isSetTimeout l.
Proof. now destruct c. Qed.

Lemma filter_setTimeout_callback (p : Props) :
  filter isSetTimeout (errorTimeoutCallback p) = [].
Proof.
  unfold errorTimeoutCallback, callOnClearError.
  repeat break_if; reflexivity.
Qed.

(** One step never runs more callbacks, and leaves more timeouts
    pending, than were pending before plus those it set. *)
Lemma step_callbacks_accounted (d : bool) (s : World) (e : Event) :
  WF s ->
  (callbacksRunBy s e
   + List.length (timers (window (fst (step d s e))))
   <= List.length (timers (window s))
      + List.length (filter isSetTimeout (snd (step d s e))))%nat.
Proof.
  intro HWF. destruct e as [p | b | ms |]; cbn [callbacksRunBy].
  - destruct (step_render d s p) as (Hw & Hc & _).
    rewrite Hw, Hc, render_other_calls by reflexivity.
    rewrite (useErrorEffect_WF s p HWF).
    destruct (keepsErrorInputs s p); [simpl; lia|].
    destruct (isTypeError p); simpl snd;
      [|rewrite <- (app_nil_r (cancelCalls _))];
      rewrite filter_setTimeout_cancel; simpl; lia.
  - unfold step. destruct (instance s); simpl; lia.
  - destruct (step_advance_WF d s ms HWF) as [(Hn & ->) | (t & Ht & ->)].
    + rewrite Hn. simpl. lia.
    + rewrite Ht. cbn [filter]. unfold isDue at 1.
      destruct (due t <=? now (window s) + Z.max 0 ms); simpl; lia.
  - unfold step. destruct (instance s) as [h|] eqn:Hi; [|simpl; lia].
    pose proof (WF_owns s HWF) as Hown. rewrite Hi in Hown.
    destruct (unmount_spec h _ Hown) as (Ht & _).
    destruct (unmount h (window s)) as [w c]. simpl in *.
    rewrite Ht. simpl. lia.
Qed.

Lemma run_callbacks_accounted (d : bool) (es : list Event) (s : World) :
  WF s ->
  (callbacksRun d s es
   <= List.length (timers (window s))
      + List.length (filter isSetTimeout (snd (run d s es))))%nat.
Proof.
  revert s. induction es as [|e es IH]; intros s HWF; [simpl; lia|].
  pose proof (step_callbacks_accounted d s e HWF) as Hs.
  specialize (IH _ (WF_step d s e HWF)).
  rewrite run_cons. cbn [snd callbacksRun].
  rewrite filter_app, length_app. lia.
Qed.

(** C3, as the code has it.  In every reachable world at most one
    timeout is pending, and
    it is the one the cleanup of the error effect will clear.  A
    re-render that leaves the inputs of the error effect as they were
    (configured length, [onChange], [onClearError], delay, [type] and
    buffer length) makes no [setTimeout] and no [clearTimeout] call and
    leaves the pending timeouts as they are.  Any other render first
    clears the timeout of the previous run and only then, when [type]
    is ['error'], sets a new one, which is then the only one pending;
    so also after a re-render in error mode at most one is pending.
    When time passes, at most one timeout callback runs, and a timeout
    that ran is pending no more; over any list of events from here, the
    callbacks that run are no more than the timeouts pending now plus
    the [setTimeout] calls made on the way, so no timeout clears
    twice. *)
Theorem at_most_one_error_timer
    (delegated : bool) (s : World) (p : Props) (ms : Z) (es : list Event) :
  reachable delegated s ->
  (List.length (timers (window s)) <= 1)%nat
  /\ Forall (fun t => oldErrorCleanup (instance s) = Some (timeoutId t))
            (timers (window s))
  /\ filter isTimeoutCall (snd (step delegated s (Render p)))
     = (if keepsErrorInputs s p then []
        else cancelCalls (oldErrorCleanup (instance s))
             ++ (if isTypeError p
                 then [SetTimeout (nextTimeoutId (window s)) (resetDelayMs p)]
                 else []))
  /\ timers (window (fst (step delegated s (Render p))))
     = (if keepsErrorInputs s p then timers (window s)
        else if isTypeError p then [armedTimer p (window s)] else [])
  /\ (List.length (timers (window (fst (step delegated s (Render p))))) <= 1)%nat
  /\ ((snd (step delegated s (Advance ms)) = []
       /\ timers (window (fst (step delegated s (Advance ms))))
          = timers (window s))
      \/ exists t,
           timers (window s) = [t]
           /\ snd (step delegated s (Advance ms))
              = errorTimeoutCallback (scope t)
           /\ timers (window (fst (step delegated s (Advance ms)))) = [])
  /\ (callbacksRun delegated s es
      <= List.length (timers (window s))
         + List.length (filter isSetTimeout (snd (run delegated s es))))%nat.
Proof.
  intro Hr. pose proof (reachable_WF _ _ Hr) as HWF.
  destruct (WF_pending s HWF) as (Hlen & Hown).
  split; [exact Hlen|]. split; [exact Hown|].
  destruct (render_timeout_calls delegated s p HWF) as (Hcalls & Htimers).
  split; [exact Hcalls|]. split; [exact Htimers|].
  split; [|split].
  - apply (WF_pending _ (WF_step delegated s (Render p) HWF)).
  - destruct (step_advance_WF delegated s ms HWF)
      as [(Hn & ->) | (t & Ht & ->)].
    + left. simpl. now rewrite Hn.
    + destruct (due t <=? now (window s) + Z.max 0 ms); simpl.
      * right. now exists t.
      * left. now rewrite Ht.
  - now apply run_callbacks_accounted.
Qed.

Lemma errorTimeoutCallback_autoClear (p : Props) :
  errorTimeoutCallback p = autoClear p.
Proof. reflexivity. Qed.

(** C4.  In a reachable world where the pad is mounted and a timeout
    is pending, [type] is ['error'] and the timeout is due no later than
    the reset delay from now.  Letting time pass runs its callback
    exactly when its due instant is reached: the calls are then
    [onChange('')] if the buffer of the current render is as long as
    the configured length (and no [onChange] otherwise), followed by
    one call of the caller's [onClearError] if the caller passed one;
    the timeout is pending no more.  Before the due instant nothing is
    called; letting the whole delay pass always reaches it. *)
Theorem error_timer_clears_full_buffer
    (delegated : bool) (s : World) (h : Hooks) (t : Timer) (ms : Z) :
  reachable delegated s ->
  instance s = Some h ->
  timers (window s) = [t] ->
  isTypeError (rendered h) = true
  /\ due t <= now (window s) + Z.max 0 (resetDelayMs (rendered h))
  /\ step delegated s (Advance ms)
     = (if due t <=? now (window s) + Z.max 0 ms
        then (later s ms [], autoClear (rendered h))
        else (later s ms [t], []))
  /\ step delegated s (Advance (resetDelayMs (rendered h)))
     = (later s (resetDelayMs (rendered h)) [], autoClear (rendered h)).
Proof.
  intros Hr Hi Ht. pose proof (reachable_WF _ _ Hr) as HWF.
  assert (Hinv : isTypeError (rendered h) = true
                 /\ errorDepsOf (scope t) = errorDepsOf (rendered h)
                 /\ due t <= now (window s)
                             + Z.max 0 (resetDelayMs (rendered h))).
  { unfold WF in HWF. rewrite Hi in HWF.
    destruct HWF as (_ & _ & _ & Hcl & [Hn | (t' & Ht' & Hc & Hd & Hdue)]);
      [congruence|].
    assert (t' = t) by congruence. subst t'.
    split; [|now split].
    destruct (isTypeError (rendered h)); [reflexivity|].
    destruct Hcl as [_ Hcl]. rewrite Hcl in Hc by reflexivity. discriminate. }
  destruct Hinv as (Hte & Hdeps & Hdue).
  split; [exact Hte|]. split; [exact Hdue|].
  assert (Hstep : forall ms',
             step delegated s (Advance ms')
             = if due t <=? now (window s) + Z.max 0 ms'
               then (later s ms' [], autoClear (rendered h))
               else (later s ms' [t], [])).
  { intro ms'.
    destruct (step_advance_WF delegated s ms' HWF)
      as [(Hn & _) | (t' & Ht' & ->)]; [congruence|].
    assert (t' = t) by congruence. subst t'.
    rewrite (errorTimeoutCallback_deps _ _ Hdeps),
      errorTimeoutCallback_autoClear.
    reflexivity. }
  split; [apply Hstep|].
  rewrite Hstep.
  now rewrite (proj2 (Z.leb_le _ _) Hdue).
Qed.

(** ** Entering error mode *)

Lemma entersError_keeps (s : World) (p : Props) :
  entersError s (Render p) = true ->
  isTypeError p = true /\ keepsErrorInputs s p = false.
Proof.
  unfold entersError, keepsErrorInputs. intro H.
  apply andb_prop in H as [Hp Hn]. split; [exact Hp|].
  destruct (instance s) as [h|]; [|reflexivity].
  destruct (sameErrorInputs (rendered h) p) eqn:Hs; [|reflexivity].
  apply sameErrorInputs_deps, isTypeError_deps in Hs.
  rewrite Hs, Hp in Hn. discriminate.
Qed.

Lemma entersError_no_cleanup (s : World) (p : Props) :
  WF s -> entersError s (Render p) = true ->
  oldErrorCleanup (instance s) = None.
Proof.
  unfold WF, entersError. intros HWF H.
  apply andb_prop in H as [_ Hn].
  destruct (instance s) as [h|]; [|reflexivity]. simpl.
  destruct HWF as (_ & _ & _ & Hcl & _). apply Hcl.
  now destruct (isTypeError (rendered h)).
Qed.

Lemma filter_vibrate_cancel (c : option nat) (l : list Call) :
  filter isVibrateOnError (cancelCalls c ++ l) = filter isVibrateOnError l.
Proof. now destruct c. Qed.

Lemma render_vibrates (d : bool) (s : World) (q : Props) :
  WF s ->
  filter isVibrateOnError (snd (step d s (Render q)))
  = if isTypeError q && negb (keepsErrorInputs s q)
    then [VibrateOnError] else [].
Proof.
  intro HWF. destruct (step_render d s q) as (_ & -> & _).
  rewrite render_other_calls by reflexivity.
  rewrite (useErrorEffect_WF s q HWF).
  destruct (keepsErrorInputs s q); [now rewrite andb_false_r|].
  destruct (isTypeError q); simpl snd;
    [rewrite filter_vibrate_cancel | rewrite <- (app_nil_r (cancelCalls _)),
                                       filter_vibrate_cancel];
    reflexivity.
Qed.

Lemma keepsErrorInputs_mounted (s : World) (h : Hooks) (q : Props) :
  instance s = Some h ->
  keepsErrorInputs s q = sameErrorInputs (rendered h) q.
Proof. unfold keepsErrorInputs. now intros ->. Qed.

Lemma error_mode_has_cleanup (s : World) (h : Hooks) :
  WF s -> instance s = Some h -> isTypeError (rendered h) = true ->
  exists id, errorCleanup h = Some id
             /\ Forall (fun t => timeoutId t = id) (timers (window s)).
Proof.
  intros HWF Hi He. destruct (WF_pending s HWF) as (_ & Hp).
  unfold WF in HWF. rewrite Hi in *. simpl in Hp.
  destruct HWF as (_ & _ & _ & Hcl & _).
  destruct (errorCleanup h) as [id|] eqn:Hc.
  - exists id. split; [reflexivity|].
    eapply Forall_impl; [|exact Hp]. intros t Ht. congruence.
  - destruct Hcl as [Hcl _]. rewrite Hcl in He by reflexivity. discriminate.
Qed.

(** C9, as the code has it.  A render at which [type] becomes
    ['error'], in a reachable world [s], calls [vibrateOnError] exactly
    once and [setTimeout] exactly once, with the reset delay (1500 ms
    when the prop is absent), and clears no timeout; afterwards that
    timeout is the only one pending, due the delay from now.  Later in
    the episode, that is in any reachable world [s'] where the pad is
    mounted with [type] ['error'], a render [q] that is still in error
    mode does nothing to the timer and does not vibrate when every input
    of the error effect is as the previous render had it; when one
    differs (configured length, [onChange], [onClearError], the delay or
    the buffer length) it clears the timeout of the episode, sets a new
    one, which is then the only one pending, and calls
    [vibrateOnError] again. *)
Theorem entering_error_vibrates_once_and_arms_timer
    (delegated : bool) (s s' : World) (h' : Hooks) (p q : Props) :
  reachable delegated s ->
  entersError s (Render p) = true ->
  reachable delegated s' ->
  instance s' = Some h' ->
  isTypeError (rendered h') = true ->
  isTypeError q = true ->
  filter isVibrateOnError (snd (step delegated s (Render p))) = [VibrateOnError]
  /\ filter isTimeoutCall (snd (step delegated s (Render p)))
     = [SetTimeout (nextTimeoutId (window s)) (resetDelayMs p)]
  /\ resetDelayMs p
     = match resetStateDelayMs p with Some n => n | None => 1500 end
  /\ timers (window (fst (step delegated s (Render p))))
     = [{| timeoutId := nextTimeoutId (window s);
           due := now (window s) + Z.max 0 (resetDelayMs p);
           scope := p |}]
  /\ exists id,
       errorCleanup h' = Some id
       /\ Forall (fun t => timeoutId t = id) (timers (window s'))
       /\ filter isVibrateOnError (snd (step delegated s' (Render q)))
          = (if sameErrorInputs (rendered h') q then [] else [VibrateOnError])
       /\ filter isTimeoutCall (snd (step delegated s' (Render q)))
          = (if sameErrorInputs (rendered h') q then []
             else [ClearTimeout id;
                   SetTimeout (nextTimeoutId (window s')) (resetDelayMs q)])
       /\ timers (window (fst (step delegated s' (Render q))))
          = (if sameErrorInputs (rendered h') q then timers (window s')
             else [{| timeoutId := nextTimeoutId (window s');
                      due := now (window s') + Z.max 0 (resetDelayMs q);
                      scope := q |}]).
Proof.
  intros Hr He Hr' Hi' He' Hq.
  pose proof (reachable_WF _ _ Hr) as HWF.
  pose proof (reachable_WF _ _ Hr') as HWF'.
  destruct (entersError_keeps s p He) as (Hte & Hk).
  pose proof (entersError_no_cleanup s p HWF He) as Hc.
  destruct (render_timeout_calls delegated s p HWF) as (Hp1 & Hp2).
  rewrite Hk, Hte, Hc in Hp1. rewrite Hk, Hte in Hp2.
  split.
  { now rewrite (render_vibrates _ _ _ HWF), Hte, Hk. }
  split; [exact Hp1|]. split; [reflexivity|]. split; [exact Hp2|].
  destruct (error_mode_has_cleanup s' h' HWF' Hi' He') as (id & Hid & Hown).
  exists id. split; [exact Hid|]. split; [exact Hown|].
  pose proof (render_vibrates delegated s' q HWF') as Hq1.
  destruct (render_timeout_calls delegated s' q HWF') as (Hq2 & Hq3).
  rewrite (keepsErrorInputs_mounted s' h' q Hi'), Hq in Hq1, Hq2, Hq3.
  unfold oldErrorCleanup in Hq2. rewrite Hi', Hid in Hq2.
  split; [|split; [exact Hq2 | exact Hq3]].
  rewrite Hq1. now destruct (sameErrorInputs (rendered h') q).
Qed.

(** ** After unmount *)

Lemma step_when_unmounted (d : bool) (s : World) (e : Event) :
  instance s = None -> timers (window s) = [] -> isRender e = false ->
  snd (step d s e) = []
  /\ instance (fst (step d s e)) = None
  /\ timers (window (fst (step d s e))) = [].
Proof.
  intros Hi Ht He. destruct e as [p | b | ms |]; [discriminate| | |];
    unfold step.
  - rewrite Hi. now repeat split.
  - rewrite (advance_idle _ _ Ht). now repeat split.
  - rewrite Hi. now repeat split.
Qed.

Lemma quiet_when_unmounted (d : bool) (es : list Event) (s : World) :
  instance s = None -> timers (window s) = [] ->
  snd (run d s (filter (fun e => negb (isRender e)) es)) = [].
Proof.
  revert s. induction es as [|e es IH]; intros s Hi Ht; [reflexivity|].
  cbn [filter]. destruct (isRender e) eqn:He; cbn [negb]; [now apply IH|].
  destruct (step_when_unmounted d s e Hi Ht He) as (Hc & Hi' & Ht').
  rewrite run_cons. cbn [snd]. rewrite Hc. now apply IH.
Qed.

(** C7.  Unmounting the pad in a reachable world calls
    [clearIsPinAccepted] exactly once, clears the pending timeout of the
    error effect (every pending timeout has its [clearTimeout] among the
    calls) and calls neither [onChange] nor [onClearError]; afterwards
    no timeout is pending and, whatever happens next short of a new
    mount (time passing, presses, a second unmount), nothing is called
    at all. *)
Theorem unmount_cancels_timer_and_clears_accepted
    (delegated : bool) (s : World) (h : Hooks) (es : list Event) :
  reachable delegated s ->
  instance s = Some h ->
  snd (step delegated s Unmount)
  = ClearIsPinAccepted
    :: cancelCalls (errorCleanup h) ++ runSwipeCleanup (swipeCleanup h)
  /\ List.length (filter isClearIsPinAccepted (snd (step delegated s Unmount)))
     = 1%nat
  /\ Forall (fun t => In (ClearTimeout (timeoutId t))
                         (snd (step delegated s Unmount)))
            (timers (window s))
  /\ timers (window (fst (step delegated s Unmount))) = []
  /\ instance (fst (step delegated s Unmount)) = None
  /\ snd (run delegated (fst (step delegated s Unmount))
              (filter (fun e => negb (isRender e)) es)) = [].
Proof.
  intros Hr Hi. pose proof (reachable_WF _ _ Hr) as HWF.
  pose proof (WF_owns s HWF) as Hown. rewrite Hi in Hown.
  destruct (unmount_spec h _ Hown) as (Ht & Hc).
  rewrite runErrorCleanup_calls in Hc.
  assert (Hs : step delegated s Unmount
               = ({| window := fst (unmount h (window s)); instance := None |},
                  snd (unmount h (window s)))).
  { unfold step. rewrite Hi. now destruct (unmount h (window s)). }
  rewrite Hs. cbn [fst snd window instance]. rewrite Hc.
  split; [reflexivity|]. split.
  { cbn [filter isClearIsPinAccepted]. rewrite filter_app.
    destruct (errorCleanup h), (swipeCleanup h); reflexivity. }
  split.
  { destruct (WF_pending s HWF) as (_ & Hp). rewrite Hi in Hp. simpl in Hp.
    eapply Forall_impl; [|exact Hp]. intros t Hid. rewrite Hid.
    right. apply in_or_app. left. now left. }
  split; [exact Ht|]. split; [reflexivity|].
  now apply quiet_when_unmounted.
Qed.

(** ** The accepted flag *)

Lemma render_onChange_calls (d : bool) (p : Props) (h : option Hooks)
    (w : Window) :
  filter isOnChange (snd (render d p h w))
  = filter isOnChange (useAcceptedEffect p h).
Proof.
  rewrite render_calls, !filter_app.
  assert (HC : filter isOnChange (useScrollPatchEffect d p h) = []).
  { unfold useScrollPatchEffect, scrollPatchEffect.
    repeat break_if; reflexivity. }
  assert (HD : filter isOnChange (snd (useErrorEffect p h w)) = []).
  { destruct (depsChanged ErrorDeps_eq_dec (option_map errorDeps h)
                (errorDepsOf p)) eqn:Hch.
    - rewrite (useErrorEffect_changed _ _ _ Hch). unfold runErrorCleanup.
      destruct (oldErrorCleanup h), (isTypeError p); reflexivity.
    - now rewrite (useErrorEffect_unchanged _ _ _ Hch). }
  assert (HE : filter isOnChange (snd (useSwipeEffect p h)) = []).
  { unfold useSwipeEffect, swipeEffect, runSwipeCleanup.
    repeat break_if; reflexivity. }
  now rewrite HC, HD, HE, !app_nil_r.
Qed.

(** C5.  In a reachable world whose last render had [isPinAccepted]
    true, a render in which it is no longer true requests
    [onChange('')], once, exactly when the buffer is as long as the
    configured length; with any other buffer the render makes no
    [onChange] call. *)
Theorem accepted_edge_clears_full_buffer
    (delegated : bool) (s : World) (h : Hooks) (p : Props) :
  reachable delegated s ->
  instance s = Some h ->
  isPinAccepted (rendered h) = Some true ->
  truthy (isPinAccepted p) = false ->
  filter isOnChange (snd (step delegated s (Render p)))
  = (if pinLength p =? strlen (value p)
     then [OnChange (onChange p) ""] else []).
Proof.
  intros Hr Hi Hprev Hcur. pose proof (reachable_WF _ _ Hr) as HWF.
  destruct (step_render delegated s p) as (_ & -> & _).
  rewrite render_onChange_calls, Hi.
  unfold WF in HWF. rewrite Hi in HWF.
  destruct HWF as (_ & Hp & (prev & Ha) & _).
  unfold useAcceptedEffect. cbn [usePrevious option_map].
  rewrite Hp, Hprev, Ha.
  assert (Hch : depsChanged AcceptedDeps_eq_dec
                  (Some (acceptedDepsOf (rendered h) prev))
                  (acceptedDepsOf p (Some true)) = true).
  { unfold depsChanged.
    destruct (AcceptedDeps_eq_dec _ _) as [Heq|]; [|reflexivity].
    unfold acceptedDepsOf in Heq. injection Heq as Heq _ _ _ _.
    rewrite Hprev in Heq. rewrite <- Heq in Hcur. discriminate. }
  rewrite Hch. unfold acceptedEffect. rewrite Hcur. simpl.
  now destruct (pinLength p =? strlen (value p)).
Qed.

(** ** Gating *)

Lemma isSuccess_disables (p : Props) :
  isSuccess p = true -> arePinButtonsDisabled p = true.
Proof. unfold arePinButtonsDisabled. now intros ->. Qed.

Lemma isSuccess_mode (p : Props) :
  type p = Some success \/ isPinAccepted p = Some true -> isSuccess p = true.
Proof.
  unfold isSuccess, isTypeSuccess. intros [-> | ->]; [reflexivity|].
  apply orb_true_r.
Qed.

(** C6.  While the last render was in success mode ([type] is
    ['success'] or [isPinAccepted] is true), every button the grid
    renders -- the ten digits, backspace, and the biometric button when
    there is one -- is disabled, and a press on any cell calls nothing
    and leaves the world as it is. *)
Theorem success_disables_all_input
    (delegated : bool) (s : World) (h : Hooks) (b : PadButton) :
  instance s = Some h ->
  type (rendered h) = Some success \/ isPinAccepted (rendered h) = Some true ->
  (renderButton (rendered h) b = None
   \/ option_map isDisabled (renderButton (rendered h) b) = Some true)
  /\ press (rendered h) b = []
  /\ step delegated s (Press b) = (s, []).
Proof.
  intros Hi Hmode. pose proof (isSuccess_mode _ Hmode) as Hs.
  pose proof (isSuccess_disables _ Hs) as Hd.
  assert (Hpress : press (rendered h) b = []).
  { unfold press, pressButton. destruct b as [k | |]; simpl.
    - now rewrite Hd.
    - destruct (onBiometricsClick (rendered h)); simpl; [|reflexivity].
      now rewrite Hs.
    - now rewrite Hs, orb_true_r. }
  split.
  { destruct b as [k | |]; simpl.
    - right. now rewrite Hd.
    - destruct (onBiometricsClick (rendered h)); simpl; [right | now left].
      now rewrite Hs.
    - right. now rewrite Hs, orb_true_r. }
  split; [exact Hpress|].
  unfold step. now rewrite Hi, Hpress.
Qed.

(** C8.  With an empty buffer the backspace button is rendered
    disabled, so a press on it calls nothing and leaves the world as it
    is, in normal mode as in any other.  [handleBackspaceClick] itself,
    which such a press does not reach, requests no buffer change for an
    empty buffer: all it would do is call [onClearError]. *)
Theorem backspace_on_empty_buffer_is_noop
    (delegated : bool) (s : World) (h : Hooks) :
  instance s = Some h ->
  value (rendered h) = "" ->
  option_map isDisabled (renderButton (rendered h) Backspace) = Some true
  /\ press (rendered h) Backspace = []
  /\ step delegated s (Press Backspace) = (s, [])
  /\ handleBackspaceClick (rendered h) = callOnClearError (rendered h).
Proof.
  intros Hi Hv.
  assert (Hc : canRenderBackspace (rendered h) = false).
  { unfold canRenderBackspace. now rewrite Hv. }
  assert (Hpress : press (rendered h) Backspace = []).
  { unfold press, pressButton; simpl. now rewrite Hc. }
  split; [simpl; now rewrite Hc|]. split; [exact Hpress|].
  split; [unfold step; now rewrite Hi, Hpress|].
  unfold handleBackspaceClick. rewrite Hv. simpl. apply app_nil_r.
Qed.

(** C10.  A digit button is rendered disabled exactly when the buffer
    is full and [type] is not ['error'], or the mode is success; a press
    on a disabled digit button calls nothing and a press on an enabled
    one runs [handleClick].  Hence, with a full buffer, a press of a
    digit either calls nothing or happens while [type] is ['error'] (and
    outside success mode), in which case it restarts the entry. *)
Theorem full_buffer_restart_only_in_error (p : Props) (k : PinKey) :
  option_map isDisabled (renderButton p (Digit k))
  = Some ((isFull p && negb (isTypeError p)) || isSuccess p)
  /\ press p (Digit k)
     = (if (isFull p && negb (isTypeError p)) || isSuccess p
        then [] else handleClick p (keyValue k))
  /\ (isFull p = false
      \/ press p (Digit k) = []
      \/ (type p = Some error /\ isSuccess p = false /\ restartsEntry p k)).
Proof.
  assert (Hd : arePinButtonsDisabled p
               = (isFull p && negb (isTypeError p)) || isSuccess p).
  { unfold arePinButtonsDisabled. apply orb_comm. }
  split; [simpl; now rewrite Hd|]. split.
  { unfold press, pressButton; simpl. now rewrite Hd. }
  destruct (isFull p) eqn:Hf; [|now left]. right.
  destruct (arePinButtonsDisabled p) eqn:Hdis.
  - left. now apply press_digit_disabled.
  - right. symmetry in Hd. apply orb_false_elim in Hd as [He Hs].
    simpl in He. apply negb_false_iff in He.
    split; [|split; [exact Hs|]].
    + unfold isTypeError in He. now destruct (type p) as [[|]|].
    + now apply restart_when_full.
Qed.

(** ** The theorems at sample inputs *)

Lemma reachable_emptyWorld : reachable false emptyWorld.
Proof. exists [Render emptyPad]. reflexivity. Defined.

Lemma reachable_errorWorld : reachable false errorWorld.
Proof. exists [Render errorPad]. reflexivity. Defined.

Lemma reachable_acceptedWorld : reachable false acceptedWorld.
Proof. exists [Render acceptedPad]. reflexivity. Defined.

(** In error mode, typing 4 and 5 after "123" fills the buffer and then
    restarts it. *)
Lemma buffer_never_exceeds_length_witness :
  (1 <= pinLength (withValue errorPad "123")
   \/ isTypeError (withValue errorPad "123") = false)
  /\ strlen (value (withValue errorPad "123"))
     <= pinLength (withValue errorPad "123")
  /\ strlen (value (typeKeys (withValue errorPad "123") [K4; K5]))
     <= pinLength (withValue errorPad "123").
Proof.
  assert (H1 : 1 <= pinLength (withValue errorPad "123")
               \/ isTypeError (withValue errorPad "123") = false).
  { left. vm_compute. discriminate. }
  assert (H2 : strlen (value (withValue errorPad "123"))
               <= pinLength (withValue errorPad "123")).
  { vm_compute. discriminate. }
  split; [exact H1|]. split; [exact H2|].
  exact (proj1 (buffer_never_exceeds_length
                  (withValue errorPad "123") [K4; K5] K6 H1 H2)).
Defined.

Lemma at_most_one_error_timer_witness :
  reachable false errorWorld
  /\ (List.length (timers (window errorWorld)) <= 1)%nat.
Proof.
  split; [exact reachable_errorWorld|].
  exact (proj1 (at_most_one_error_timer false errorWorld errorPad 1500
                  [Advance 1500] reachable_errorWorld)).
Defined.

Lemma error_timer_clears_full_buffer_witness :
  reachable false errorWorld
  /\ instance errorWorld = Some errorHooks
  /\ timers (window errorWorld) = [errorTimer]
  /\ step false errorWorld (Advance 1500)
     = (later errorWorld 1500 [], [OnChange 1%nat ""; OnClearError 2%nat]).
Proof.
  split; [exact reachable_errorWorld|].
  split; [reflexivity|]. split; [reflexivity|].
  exact (proj1 (proj2 (proj2 (error_timer_clears_full_buffer
                                false errorWorld errorHooks errorTimer 1500
                                reachable_errorWorld eq_refl eq_refl)))).
Defined.

Lemma accepted_edge_clears_full_buffer_witness :
  reachable false acceptedWorld
  /\ instance acceptedWorld = Some acceptedHooks
  /\ isPinAccepted (rendered acceptedHooks) = Some true
  /\ truthy (isPinAccepted (withAccepted acceptedPad (Some false))) = false
  /\ filter isOnChange
       (snd (step false acceptedWorld
                  (Render (withAccepted acceptedPad (Some false)))))
     = [OnChange 1%nat ""].
Proof.
  split; [exact reachable_acceptedWorld|].
  split; [reflexivity|]. split; [reflexivity|]. split; [reflexivity|].
  exact (accepted_edge_clears_full_buffer
           false acceptedWorld acceptedHooks
           (withAccepted acceptedPad (Some false))
           reachable_acceptedWorld eq_refl eq_refl eq_refl).
Defined.

Lemma success_disables_all_input_witness :
  instance acceptedWorld = Some acceptedHooks
  /\ (type (rendered acceptedHooks) = Some success
      \/ isPinAccepted (rendered acceptedHooks) = Some true)
  /\ step false acceptedWorld (Press (Digit K1)) = (acceptedWorld, []).
Proof.
  split; [reflexivity|]. split; [right; reflexivity|].
  exact (proj2 (proj2 (success_disables_all_input
                         false acceptedWorld acceptedHooks (Digit K1)
                         eq_refl (or_intror eq_refl)))).
Defined.

Lemma unmount_cancels_timer_and_clears_accepted_witness :
  reachable false errorWorld
  /\ instance errorWorld = Some errorHooks
  /\ snd (step false errorWorld Unmount)
     = [ClearIsPinAccepted; ClearTimeout 1; EnableSwipeToClose].
Proof.
  split; [exact reachable_errorWorld|]. split; [reflexivity|].
  exact (proj1 (unmount_cancels_timer_and_clears_accepted
                  false errorWorld errorHooks [Advance 1500]
                  reachable_errorWorld eq_refl)).
Defined.

Lemma backspace_on_empty_buffer_is_noop_witness :
  instance emptyWorld = Some emptyHooks
  /\ value (rendered emptyHooks) = ""
  /\ step false emptyWorld (Press Backspace) = (emptyWorld, []).
Proof.
  split; [reflexivity|]. split; [reflexivity|].
  exact (proj1 (proj2 (proj2 (backspace_on_empty_buffer_is_noop
                                false emptyWorld emptyHooks
                                eq_refl eq_refl)))).
Defined.

Lemma entering_error_vibrates_once_and_arms_timer_witness :
  reachable false emptyWorld
  /\ entersError emptyWorld (Render errorPad) = true
  /\ reachable false errorWorld
  /\ instance errorWorld = Some errorHooks
  /\ isTypeError (rendered errorHooks) = true
  /\ isTypeError (withValue errorPad "123") = true
  /\ filter isVibrateOnError (snd (step false emptyWorld (Render errorPad)))
     = [VibrateOnError].
Proof.
  split; [exact reachable_emptyWorld|]. split; [reflexivity|].
  split; [exact reachable_errorWorld|]. split; [reflexivity|].
  split; [reflexivity|]. split; [reflexivity|].
  exact (proj1 (entering_error_vibrates_once_and_arms_timer
                  false emptyWorld errorWorld errorHooks
                  errorPad (withValue errorPad "123")
                  reachable_emptyWorld eq_refl
                  reachable_errorWorld eq_refl eq_refl eq_refl)).
Defined.

(** C9 as stated fails: mounted in error mode on "1234" and re-rendered,
    still in error mode, on "123", the pad has entered error mode once
    and called [vibrateOnError] twice. *)
Lemma haptic_twice_in_one_error_episode :
  countSteps false entersError initialWorld
    [Render errorPad; Render (withValue errorPad "123")] = 1%nat
  /\ filter isVibrateOnError
       (snd (run false initialWorld
                 [Render errorPad; Render (withValue errorPad "123")]))
     = [VibrateOnError; VibrateOnError]
  /\ ~ hapticOncePerEpisode false
         [Render errorPad; Render (withValue errorPad "123")].
Proof.
  split; [reflexivity|]. split; [reflexivity|].
  unfold hapticOncePerEpisode. vm_compute. discriminate.
Qed.

(** C3 as worded fails: in error mode on "1234", a re-render that
    changes nothing but the configured length (from 4 to 5) leaves
    [type], the buffer length, [onChange], [onClearError] and the delay
    as they were, and yet clears the pending timeout and sets a new
    one. *)
Lemma rearmed_when_only_length_changes :
  sameListedInputs (rendered errorHooks) (withLength errorPad (Some 5)) = true
  /\ snd (step false errorWorld (Render (withLength errorPad (Some 5))))
     = [ClearTimeout 1; SetTimeout 2 1500; VibrateOnError]
  /\ ~ noRearmOnListedInputs false errorWorld (withLength errorPad (Some 5)).
Proof.
  split; [reflexivity|]. split; [reflexivity|].
  intro H. specialize (H eq_refl). vm_compute in H. discriminate.
Qed.

(** * Further properties of the code *)

(** ** Backspace *)

Lemma append_assoc (a b c : string) : ((a ++ b) ++ c = a ++ (b ++ c))%string.
Proof. induction a as [|x a IH]; simpl; [reflexivity | now rewrite IH]. Qed.

Lemma substring_prefix (a b : string) :
  String.substring 0 (String.length a) (a ++ b) = a.
Proof.
  induction a as [|x a IH]; simpl.
  - now destruct b.
  - now rewrite IH.
Qed.

Lemma length_append (a b : string) :
  String.length (a ++ b) = (String.length a + String.length b)%nat.
Proof. induction a as [|x a IH]; simpl; [reflexivity | now rewrite IH]. Qed.

Lemma sliceInit_snoc (v : string) (c : Ascii.ascii) :
  sliceInit (v ++ String c "") = v.
Proof.
  unfold sliceInit. rewrite length_append. simpl.
  replace (String.length v + 1 - 1)%nat with (String.length v) by lia.
  apply substring_prefix.
Qed.

Lemma string_snoc (s : string) :
  s <> "" -> exists v c, s = (v ++ String c "")%string.
Proof.
  induction s as [|x s IH]; intro Hne; [contradiction|].
  destruct s as [|y s].
  - now exists "", x.
  - destruct IH as (v & c & Hv); [discriminate|].
    exists (String x v), c. simpl. now rewrite <- Hv.
Qed.

Lemma press_backspace_enabled (p : Props) :
  0 < strlen (value p) -> isSuccess p = false ->
  press p Backspace
  = callOnClearError p ++ [OnChange (onChange p) (sliceInit (value p))].
Proof.
  intros Hlen Hs. unfold press, pressButton; simpl.
  unfold canRenderBackspace. rewrite (proj2 (Z.ltb_lt _ _) Hlen), Hs. simpl.
  unfold handleBackspaceClick.
  now rewrite (proj2 (Z.eqb_neq _ _) (Z.neq_sym _ _ (Z.lt_neq _ _ Hlen))).
Qed.

(** X1.  Outside success mode, a press on backspace with a non-empty
    buffer calls [onClearError] (if there is one) and then requests
    exactly one buffer: the current one without its last character. *)
Theorem backspace_drops_last_digit (p : Props) :
  0 < strlen (value p) ->
  isSuccess p = false ->
  press p Backspace
  = callOnClearError p ++ [OnChange (onChange p) (sliceInit (value p))]
  /\ strlen (sliceInit (value p)) = strlen (value p) - 1
  /\ exists c, value p = (sliceInit (value p) ++ String c "")%string.
Proof.
  intros Hlen Hs. split; [now apply press_backspace_enabled|].
  destruct (string_snoc (value p)) as (v & c & Hv).
  { intro H. rewrite H in Hlen. unfold strlen in Hlen. simpl in Hlen. lia. }
  rewrite Hv, sliceInit_snoc. split.
  - rewrite strlen_append. unfold strlen. simpl. lia.
  - now exists c.
Qed.

Lemma keyValue_snoc (k : PinKey) : exists c, keyValue k = String c "".
Proof. destruct k; eexists; reflexivity. Qed.

Lemma honour_press_append (p : Props) (k : PinKey) :
  isSuccess p = false ->
  strlen (value p) <> pinLength p ->
  honour (press p (Digit k)) (value p) = (value p ++ keyValue k)%string.
Proof.
  intros Hs Hnf.
  assert (Hd : arePinButtonsDisabled p = false).
  { unfold arePinButtonsDisabled, isFull.
    now rewrite Hs, (proj2 (Z.eqb_neq _ _) Hnf). }
  rewrite (press_digit_enabled _ _ Hd).
  destruct (Z.eq_dec (strlen (value p) + 1) (pinLength p)) as [Hc | Hnc].
  - now rewrite (handleClick_completing _ _ Hc), honour_app, honour_clear.
  - now rewrite (handleClick_partial _ _ Hnf Hnc), honour_app, honour_clear.
Qed.

(** X2.  Outside success mode and with a buffer that is not full, a
    digit followed by backspace gives the buffer back: the caller
    honouring both requests ends with the buffer it started from. *)
Theorem digit_then_backspace_restores_buffer (p : Props) (k : PinKey) :
  isSuccess p = false ->
  strlen (value p) <> pinLength p ->
  honour (press (typeKeys p [k]) Backspace) (value (typeKeys p [k])) = value p.
Proof.
  intros Hs Hnf. cbn [typeKeys].
  rewrite (honour_press_append _ _ Hs Hnf).
  rewrite press_backspace_enabled.
  - rewrite honour_app. cbn [value withValue].
    destruct (keyValue_snoc k) as (c & ->).
    unfold callOnClearError. cbn [onClearError withValue].
    destruct (onClearError p); simpl; apply sliceInit_snoc.
  - cbn [value withValue]. rewrite strlen_append, strlen_keyValue.
    pose proof (strlen_nonneg (value p)). lia.
  - exact Hs.
Qed.

(** ** Typing digits *)

Lemma filter_clearError_if (b : bool) (p : Props) (l : list Call) :
  (forall c, In c l -> isOnClearError c = false) ->
  filter isOnClearError ((if b then callOnClearError p else []) ++ l)
  = if b then callOnClearError p else [].
Proof.
  intro Hl. rewrite filter_app.
  assert (Hnil : filter isOnClearError l = []).
  { apply filter_nil_iff, Forall_forall. exact Hl. }
  rewrite Hnil, app_nil_r. unfold callOnClearError.
  destruct b; [|reflexivity]. now destruct (onClearError p).
Qed.

(** X3.  A digit press that is processed makes exactly one [onChange]
    call, and it calls [onClearError] (once, if the caller passed one)
    exactly when the buffer was empty or full: a digit typed into a
    partly filled buffer never dismisses the error.  A press on a
    disabled digit button calls neither. *)
Theorem digit_press_clears_error_only_at_ends (p : Props) (k : PinKey) :
  List.length (filter isOnChange (press p (Digit k)))
  = (if arePinButtonsDisabled p then 0%nat else 1%nat)
  /\ filter isOnClearError (press p (Digit k))
     = (if negb (arePinButtonsDisabled p)
           && (isFull p || (strlen (value p) =? 0))
        then callOnClearError p else []).
Proof.
  destruct (arePinButtonsDisabled p) eqn:Hd.
  - rewrite (press_digit_disabled _ _ Hd). now split.
  - rewrite (press_digit_enabled _ _ Hd). cbn [negb andb]. unfold isFull.
    destruct (Z.eq_dec (strlen (value p)) (pinLength p)) as [Hf | Hnf].
    + rewrite (handleClick_full _ _ Hf), (proj2 (Z.eqb_eq _ _) Hf). split.
      * rewrite filter_app. unfold callOnClearError.
        now destruct (onClearError p).
      * apply (filter_clearError_if true).
        intros c [<- | []]. reflexivity.
    + rewrite (proj2 (Z.eqb_neq _ _) Hnf). cbn [orb].
      destruct (Z.eq_dec (strlen (value p) + 1) (pinLength p)) as [Hc | Hnc].
      * rewrite (handleClick_completing _ _ Hc). split.
        -- rewrite filter_app. unfold callOnClearError.
           destruct (strlen (value p) =? 0); [|reflexivity].
           now destruct (onClearError p).
        -- apply filter_clearError_if.
           intros c [<- | [<- | []]]; reflexivity.
      * rewrite (handleClick_partial _ _ Hnf Hnc). split.
        -- rewrite filter_app. unfold callOnClearError.
           destruct (strlen (value p) =? 0); [|reflexivity].
           now destruct (onClearError p).
        -- apply filter_clearError_if.
           intros c [<- | []]. reflexivity.
Qed.

Lemma filter_submit_press_append (p : Props) (k : PinKey) :
  isSuccess p = false ->
  strlen (value p) <> pinLength p ->
  filter isOnSubmit (press p (Digit k))
  = (if strlen (value p) + 1 =? pinLength p
     then [OnSubmit (onSubmit p) (value p ++ keyValue k)%string] else [])
  /\ List.length (filter isOnChange (press p (Digit k))) = 1%nat.
Proof.
  intros Hs Hnf.
  assert (Hd : arePinButtonsDisabled p = false).
  { unfold arePinButtonsDisabled, isFull.
    now rewrite Hs, (proj2 (Z.eqb_neq _ _) Hnf). }
  split.
  - rewrite (press_digit_enabled _ _ Hd).
    destruct (Z.eqb_spec (strlen (value p) + 1) (pinLength p)) as [Hc | Hnc].
    + now rewrite (handleClick_completing _ _ Hc), filter_submit_if_clear.
    + now rewrite (handleClick_partial _ _ Hnf Hnc), filter_submit_if_clear.
  - rewrite (press_digit_enabled _ _ Hd).
    destruct (Z.eq_dec (strlen (value p) + 1) (pinLength p)) as [Hc | Hnc];
      [rewrite (handleClick_completing _ _ Hc)
      |rewrite (handleClick_partial _ _ Hnf Hnc)];
      rewrite filter_app; unfold callOnClearError;
      destruct (strlen (value p) =? 0); try reflexivity;
      now destruct (onClearError p).
Qed.

Lemma append_nil_r (a : string) : (a ++ "")%string = a.
Proof. induction a as [|x a IH]; simpl; [reflexivity | now rewrite IH]. Qed.

(** X4.  Outside success mode, typing digits that still fit (buffer
    length plus the number of keys is at most the configured length)
    appends them in order; every press makes one [onChange] call; and
    [onSubmit] is called exactly once, with the whole buffer, if the
    last key fills it, and not at all otherwise. *)
Theorem typing_appends_and_submits_when_full
    (p : Props) (ks : list PinKey) :
  isSuccess p = false ->
  strlen (value p) + Z.of_nat (List.length ks) <= pinLength p ->
  value (typeKeys p ks) = (value p ++ concatKeys ks)%string
  /\ filter isOnSubmit (typeKeysCalls p ks)
     = (if negb (Nat.eqb (List.length ks) 0)
           && (strlen (value p) + Z.of_nat (List.length ks) =? pinLength p)
        then [OnSubmit (onSubmit p) (value p ++ concatKeys ks)%string]
        else [])
  /\ List.length (filter isOnChange (typeKeysCalls p ks)) = List.length ks.
Proof.
  revert p. induction ks as [|k ks IH]; intros p Hs Hcap.
  - simpl. now rewrite append_nil_r.
  - cbn [List.length] in Hcap.
    assert (Hnf : strlen (value p) <> pinLength p) by lia.
    cbn [typeKeys typeKeysCalls concatKeys].
    rewrite (honour_press_append _ _ Hs Hnf).
    destruct (filter_submit_press_append p k Hs Hnf) as (Hsub & Hchg).
    destruct (IH (withValue p (value p ++ keyValue k)%string)) as (Hv & Hsu & Hch).
    { exact Hs. }
    { cbn [value withValue]. rewrite strlen_append, strlen_keyValue.
      change (pinLength (withValue p (value p ++ keyValue k)%string))
        with (pinLength p). lia. }
    cbn [value withValue onSubmit] in Hv, Hsu.
    change (pinLength (withValue p (value p ++ keyValue k)%string))
      with (pinLength p) in Hsu.
    rewrite strlen_append, strlen_keyValue in Hsu.
    rewrite !filter_app, length_app, Hsub, Hsu, Hchg, Hch, Hv, append_assoc.
    split; [reflexivity|]. split; [|reflexivity].
    cbn [List.length Nat.eqb negb andb].
    destruct ks as [|k' ks].
    + cbn [List.length Nat.eqb negb andb concatKeys]. rewrite app_nil_r.
      replace (strlen (value p) + Z.of_nat 1) with (strlen (value p) + 1)
        by lia.
      now rewrite append_nil_r.
    + cbn [List.length] in Hcap.
      rewrite (proj2 (Z.eqb_neq (strlen (value p) + 1) (pinLength p)))
        by lia.
      cbn [List.length Nat.eqb negb andb app].
      replace (strlen (value p) + 1 + Z.of_nat (S (List.length ks)))
        with (strlen (value p) + Z.of_nat (S (S (List.length ks)))) by lia.
      reflexivity.
Qed.

Lemma withValue_same (p : Props) : withValue p (value p) = p.
Proof. now destruct p. Qed.

Lemma press_ignored_when_disabled (p : Props) (k : PinKey) :
  arePinButtonsDisabled p = true ->
  press p (Digit k) = []
  /\ withValue p (honour (press p (Digit k)) (value p)) = p.
Proof.
  intro Hd. rewrite (press_digit_disabled _ _ Hd). split; [reflexivity|].
  apply withValue_same.
Qed.

(** X5.  In normal mode (neither error nor success), with the buffer no
    longer than the configured length N, typing any digits keeps the
    first ones that fit and ignores the rest: the buffer ends as the old
    one followed by the first N - length keys; [onChange] is called once
    for each key that fitted and never after; [onSubmit] is called
    once, with the full buffer, if the keys filled it, and not at all
    if they did not or if it was full already. *)
Theorem normal_mode_ignores_digits_beyond_length
    (p : Props) (ks : list PinKey) :
  isSuccess p = false ->
  isTypeError p = false ->
  strlen (value p) <= pinLength p ->
  let room := Z.to_nat (pinLength p - strlen (value p)) in
  value (typeKeys p ks) = (value p ++ concatKeys (firstn room ks))%string
  /\ List.length (filter isOnChange (typeKeysCalls p ks))
     = Nat.min room (List.length ks)
  /\ filter isOnSubmit (typeKeysCalls p ks)
     = (if negb (Nat.eqb room 0) && Nat.leb room (List.length ks)
        then [OnSubmit (onSubmit p) (value p ++ concatKeys (firstn room ks))%string]
        else []).
Proof.
  revert p. induction ks as [|k ks IH]; intros p Hs He Hlen room.
  - cbn [typeKeys typeKeysCalls firstn concatKeys filter List.length].
    rewrite firstn_nil, Nat.min_0_r. cbn [concatKeys].
    rewrite append_nil_r. split; [reflexivity|]. split; [reflexivity|].
    now destruct room.
  - cbn [typeKeys typeKeysCalls].
    destruct (Z.eq_dec (strlen (value p)) (pinLength p)) as [Hf | Hnf].
    + assert (Hd : arePinButtonsDisabled p = true).
      { unfold arePinButtonsDisabled, isFull.
        rewrite He, (proj2 (Z.eqb_eq _ _) Hf). apply orb_true_r. }
      destruct (press_ignored_when_disabled p k Hd) as (-> & ->).
      assert (Hroom : room = O) by (unfold room; lia).
      specialize (IH p Hs He Hlen). cbv zeta in IH.
      fold room in IH. rewrite Hroom in *. exact IH.
    + assert (Hroom : room
                      = S (Z.to_nat (pinLength p
                                     - strlen (value p ++ keyValue k))))
        by (unfold room; rewrite strlen_append, strlen_keyValue; lia).
      rewrite (honour_press_append _ _ Hs Hnf).
      destruct (filter_submit_press_append p k Hs Hnf) as (Hsub & Hchg).
      specialize (IH (withValue p (value p ++ keyValue k)%string) Hs He).
      cbv zeta in IH. cbn [value withValue onSubmit] in IH.
      change (pinLength (withValue p (value p ++ keyValue k)%string))
        with (pinLength p) in IH.
      destruct IH as (Hv & Hch & Hsu).
      { rewrite strlen_append, strlen_keyValue. lia. }
      rewrite Hroom.
      set (r := Z.to_nat (pinLength p - strlen (value p ++ keyValue k))) in *.
      rewrite !filter_app, length_app, Hsub, Hsu, Hchg, Hch, Hv, append_assoc.
      cbn [firstn concatKeys List.length Nat.min Nat.eqb negb Nat.leb andb].
      split; [reflexivity|]. split; [reflexivity|].
      destruct r as [|r'] eqn:Hr.
      * rewrite (proj2 (Z.eqb_eq (strlen (value p) + 1) (pinLength p)))
          by (unfold room in Hroom; lia).
        cbn [Nat.eqb negb andb Nat.leb firstn concatKeys app].
        now rewrite append_nil_r.
      * rewrite (proj2 (Z.eqb_neq (strlen (value p) + 1) (pinLength p)))
          by (unfold room in Hroom; lia).
        reflexivity.
Qed.

(** ** The dots *)

Lemma dots_from (p : Props) (n a : nat) :
  map (fun i => dotOf p (Z.of_nat i <? strlen (value p))) (seq a n)
  = repeat (dotOf p true)
           (Nat.min n (Z.to_nat (strlen (value p)) - a))
    ++ repeat (dotOf p false)
              (n - Nat.min n (Z.to_nat (strlen (value p)) - a)).
Proof.
  revert a. induction n as [|n IH]; intro a; [reflexivity|].
  cbn [seq map]. rewrite IH.
  destruct (Z.ltb_spec (Z.of_nat a) (strlen (value p))) as [Hlt | Hge].
  - replace (Nat.min (S n) (Z.to_nat (strlen (value p)) - a))
      with (S (Nat.min n (Z.to_nat (strlen (value p)) - S a))) by lia.
    reflexivity.
  - replace (Nat.min (S n) (Z.to_nat (strlen (value p)) - a)) with O by lia.
    replace (Nat.min n (Z.to_nat (strlen (value p)) - S a)) with O by lia.
    now rewrite !Nat.sub_0_r.
Qed.

(** X6.  [renderDots] draws as many dots as the configured length
    (none for a negative one), the filled ones first: there are
    min(buffer length, configured length) filled dots followed by
    unfilled ones, so a buffer longer than the configured length never
    adds a dot; every dot carries the error and success marks of the
    pad. *)
Theorem renderDots_filled_prefix (p : Props) :
  let n := Z.to_nat (pinLength p) in
  let filled := Z.to_nat (Z.min (strlen (value p)) (pinLength p)) in
  renderDots p
  = repeat (dotOf p true) filled ++ repeat (dotOf p false) (n - filled)
  /\ List.length (renderDots p) = n
  /\ List.length (filter dotFilled (renderDots p)) = filled.
Proof.
  intros n filled.
  assert (Hshape : renderDots p
                   = repeat (dotOf p true) filled
                     ++ repeat (dotOf p false) (n - filled)).
  { unfold renderDots. fold n.
    change (map _ (seq 0 n))
      with (map (fun i => dotOf p (Z.of_nat i <? strlen (value p))) (seq 0 n)).
    rewrite dots_from.
    replace (Nat.min n (Z.to_nat (strlen (value p)) - 0)) with filled
      by (unfold n, filled; pose proof (strlen_nonneg (value p)); lia).
    reflexivity. }
  split; [exact Hshape|]. split.
  - unfold renderDots. now rewrite length_map, length_seq.
  - rewrite Hshape, filter_app.
    assert (Ht : forall m, filter dotFilled (repeat (dotOf p true) m)
                           = repeat (dotOf p true) m).
    { induction m as [|m IH]; [reflexivity|]. simpl. now rewrite IH. }
    assert (Hf : forall m, filter dotFilled (repeat (dotOf p false) m) = []).
    { induction m as [|m IH]; [reflexivity|]. simpl. exact IH. }
    now rewrite Ht, Hf, app_nil_r, repeat_length.
Qed.

(** ** Which effect makes which call *)

Lemma useAcceptedEffect_filter (f : Call -> bool) (p : Props)
    (h : option Hooks) :
  (forall g v, f (OnChange g v) = false) ->
  filter f (useAcceptedEffect p h) = [].
Proof.
  intro H. unfold useAcceptedEffect, acceptedEffect.
  repeat break_if; simpl; now rewrite ?H.
Qed.

Lemma useScrollPatchEffect_filter (f : Call -> bool) (d : bool) (p : Props)
    (h : option Hooks) :
  f ClearScrollPatch = false -> f ApplyScrollPatch = false ->
  filter f (useScrollPatchEffect d p h) = [].
Proof.
  intros H1 H2. unfold useScrollPatchEffect, scrollPatchEffect.
  repeat break_if; simpl; now rewrite ?H1, ?H2.
Qed.

Lemma useErrorEffect_filter (f : Call -> bool) (p : Props)
    (h : option Hooks) (w : Window) :
  (forall id, f (ClearTimeout id) = false) ->
  (forall id ms, f (SetTimeout id ms) = false) ->
  f VibrateOnError = false ->
  filter f (snd (useErrorEffect p h w)) = [].
Proof.
  intros H1 H2 H3.
  destruct (depsChanged ErrorDeps_eq_dec (option_map errorDeps h)
              (errorDepsOf p)) eqn:Hch.
  - rewrite (useErrorEffect_changed _ _ _ Hch). unfold runErrorCleanup.
    destruct (oldErrorCleanup h), (isTypeError p); simpl;
      now rewrite ?H1, ?H2, ?H3.
  - now rewrite (useErrorEffect_unchanged _ _ _ Hch).
Qed.

Lemma useSwipeEffect_filter (f : Call -> bool) (p : Props)
    (h : option Hooks) :
  f DisableSwipeToClose = false -> f EnableSwipeToClose = false ->
  filter f (snd (useSwipeEffect p h)) = [].
Proof.
  intros H1 H2. unfold useSwipeEffect, swipeEffect, runSwipeCleanup.
  repeat break_if; simpl; now rewrite ?H1, ?H2.
Qed.

Lemma press_filter (f : Call -> bool) (p : Props) (b : PadButton) :
  (forall c, isCallerCallback c = true -> f c = false) ->
  filter f (press p b) = [].
Proof.
  intro H. apply filter_nil_iff, Forall_forall. intros c Hin. apply H.
  revert Hin. unfold press, pressButton.
  destruct b as [k | |]; simpl.
  - destruct (arePinButtonsDisabled p); [intros []|].
    unfold handleClick, callOnClearError. intro Hin.
    apply in_app_or in Hin as [Hin | Hin].
    + revert Hin. repeat break_if; simpl; intuition (subst; reflexivity).
    + revert Hin. repeat break_if; simpl; intuition (subst; reflexivity).
  - destruct (onBiometricsClick p); simpl; [|intros []].
    destruct (isSuccess p); simpl; intuition (subst; reflexivity).
  - destruct (negb (canRenderBackspace p) || isSuccess p); [intros []|].
    unfold handleBackspaceClick, callOnClearError. simpl.
    repeat break_if; simpl; intuition (subst; reflexivity).
Qed.

Lemma advance_filter (f : Call -> bool) (ms : Z) (w : Window) :
  (forall c, isCallerCallback c = true -> f c = false) ->
  filter f (snd (advance ms w)) = [].
Proof.
  intro H. unfold advance; simpl. apply filter_flat_map_nil. intro t.
  unfold errorTimeoutCallback, callOnClearError.
  repeat break_if; simpl; rewrite ?H; reflexivity.
Qed.

Lemma step_press_calls (d : bool) (s : World) (b : PadButton) :
  fst (step d s (Press b)) = s
  /\ snd (step d s (Press b))
     = match instance s with Some h => press (rendered h) b | None => [] end.
Proof. unfold step. now destruct (instance s). Qed.

Lemma step_advance_calls (d : bool) (s : World) (ms : Z) :
  instance (fst (step d s (Advance ms))) = instance s
  /\ snd (step d s (Advance ms)) = snd (advance ms (window s)).
Proof. unfold step. now destruct (advance ms (window s)). Qed.

Lemma step_unmount_calls (d : bool) (s : World) :
  instance (fst (step d s Unmount)) = None
  /\ snd (step d s Unmount)
     = match instance s with
       | Some h =>
           ClearIsPinAccepted
           :: cancelCalls (errorCleanup h) ++ runSwipeCleanup (swipeCleanup h)
       | None => []
       end.
Proof.
  unfold step. destruct (instance s) as [h|] eqn:Hi; [|now split].
  unfold unmount. rewrite <- runErrorCleanup_calls with (w := window s).
  now destruct (runErrorCleanup (errorCleanup h) (window s)).
Qed.

(** ** The effects on [isActive] *)

Lemma render_active_fields (d : bool) (p : Props) (h : option Hooks)
    (w : Window) :
  let h' := fst (fst (render d p h w)) in
  scrollPatchDeps h' = isActive p
  /\ swipeDeps h' = isActive p
  /\ swipeCleanup h' = fst (useSwipeEffect p h).
Proof.
  unfold render.
  destruct (useErrorEffect p h w) as [[c w'] cs].
  destruct (useSwipeEffect p h) as [c' cs']. simpl. repeat split.
Qed.

Lemma useSwipeEffect_active (s : World) (p : Props) :
  activeWF s ->
  useSwipeEffect p (instance s)
  = (truthy (isActive p),
     (if wasActive s && negb (truthy (isActive p))
      then [EnableSwipeToClose] else [])
     ++ (if truthy (isActive p) && negb (wasActive s)
         then [DisableSwipeToClose] else [])).
Proof.
  unfold activeWF, wasActive, useSwipeEffect, swipeEffect, runSwipeCleanup.
  destruct (instance s) as [h|]; simpl.
  - intros (_ & Hd & Hc). rewrite Hd, Hc.
    destruct (ActiveDeps_eq_dec (isActive (rendered h)) (isActive p))
      as [Heq | Hne].
    + rewrite Heq. now destruct (truthy (isActive p)).
    + destruct (isActive (rendered h)) as [[|]|], (isActive p) as [[|]|];
        simpl; try reflexivity; contradiction.
  - intros _. now destruct (truthy (isActive p)).
Qed.

Lemma useScrollPatchEffect_active (d : bool) (s : World) (p : Props) :
  activeWF s ->
  useScrollPatchEffect d p (instance s)
  = if d
    then if truthy (isActive p)
         then if wasActive s then [] else [ClearScrollPatch]
         else if wasActive s then [ApplyScrollPatch] else []
    else [].
Proof.
  unfold activeWF, wasActive, useScrollPatchEffect, scrollPatchEffect.
  destruct (instance s) as [h|]; simpl.
  - intros (Hd & _). rewrite Hd.
    destruct (ActiveDeps_eq_dec (isActive (rendered h)) (isActive p))
      as [Heq | Hne].
    + rewrite Heq. destruct d; [|reflexivity].
      now destruct (truthy (isActive p)).
    + destruct d; [|reflexivity]. simpl.
      destruct (isActive (rendered h)) as [[|]|], (isActive p) as [[|]|];
        simpl; try reflexivity; contradiction.
  - intros _. destruct d; [|reflexivity]. simpl.
    now destruct (truthy (isActive p)).
Qed.

Lemma activeWF_step (d : bool) (s : World) (e : Event) :
  activeWF s -> activeWF (fst (step d s e)).
Proof.
  intro HWF. destruct e as [p | b | ms |].
  - destruct (step_render d s p) as (_ & _ & h' & Hi & ->).
    unfold activeWF. rewrite Hi.
    destruct (render_active_fields d p (instance s) (window s))
      as (H1 & H2 & H3).
    destruct (render_fields d p (instance s) (window s)) as (Hr & _).
    rewrite H1, H2, H3, Hr, (useSwipeEffect_active s p HWF). now repeat split.
  - now rewrite (proj1 (step_press_calls d s b)).
  - unfold activeWF. now rewrite (proj1 (step_advance_calls d s ms)).
  - unfold activeWF. now rewrite (proj1 (step_unmount_calls d s)).
Qed.

Lemma activeWF_run (d : bool) (es : list Event) (s : World) :
  activeWF s -> activeWF (fst (run d s es)).
Proof.
  revert s. induction es as [|e es IH]; intros s HWF; [exact HWF|].
  rewrite run_cons. cbn [fst]. apply IH, activeWF_step, HWF.
Qed.

Lemma render_swipe_calls (f : Call -> bool) (d : bool) (p : Props)
    (h : option Hooks) (w : Window) :
  (forall g v, f (OnChange g v) = false) ->
  f ClearScrollPatch = false -> f ApplyScrollPatch = false ->
  (forall id, f (ClearTimeout id) = false) ->
  (forall id ms, f (SetTimeout id ms) = false) ->
  f VibrateOnError = false ->
  filter f (snd (render d p h w)) = filter f (snd (useSwipeEffect p h)).
Proof.
  intros H1 H2 H3 H4 H5 H6. rewrite render_calls, !filter_app.
  rewrite useAcceptedEffect_filter, useScrollPatchEffect_filter,
    useErrorEffect_filter by assumption.
  reflexivity.
Qed.

Lemma step_swipe_accounted (d : bool) (s : World) (e : Event) :
  activeWF s ->
  (List.length (filter isDisableSwipe (snd (step d s e)))
   + (if wasActive s then 1 else 0)
   = List.length (filter isEnableSwipe (snd (step d s e)))
     + (if wasActive (fst (step d s e)) then 1 else 0))%nat.
Proof.
  intro HWF. destruct e as [p | b | ms |].
  - destruct (step_render d s p) as (_ & Hc & h' & Hi & Hh).
    unfold wasActive at 2. rewrite Hi, Hh, Hc.
    rewrite (proj1 (render_fields d p (instance s) (window s))).
    rewrite !render_swipe_calls by reflexivity.
    rewrite (useSwipeEffect_active s p HWF). cbn [snd].
    destruct (wasActive s), (truthy (isActive p)); reflexivity.
  - destruct (step_press_calls d s b) as (-> & ->).
    destruct (instance s) as [h|]; [|reflexivity].
    now rewrite !press_filter by (intros [] Hc; (discriminate || reflexivity)).
  - destruct (step_advance_calls d s ms) as (Hi & ->).
    unfold wasActive. rewrite Hi.
    now rewrite !advance_filter
      by (intros [] Hc; (discriminate || reflexivity)).
  - destruct (step_unmount_calls d s) as (Hi & ->).
    unfold wasActive at 2. rewrite Hi.
    unfold activeWF, wasActive in *. destruct (instance s) as [h|];
      [|reflexivity].
    destruct HWF as (_ & _ & ->). cbn [filter isDisableSwipe isEnableSwipe].
    rewrite !filter_app. unfold runSwipeCleanup.
    destruct (errorCleanup h), (truthy (isActive (rendered h))); reflexivity.
Qed.

(** X7.  Over any run from the initial world the calls to
    [disableSwipeToClose] and [enableSwipeToClose] are balanced: there
    is exactly one more disable than enable while the pad is mounted
    with [isActive] truthy, and as many of each otherwise, in
    particular after every unmount. *)
Theorem swipe_to_close_is_balanced (delegated : bool) (es : list Event) :
  List.length (filter isDisableSwipe (snd (run delegated initialWorld es)))
  = (List.length (filter isEnableSwipe (snd (run delegated initialWorld es)))
     + (if wasActive (fst (run delegated initialWorld es)) then 1 else 0))%nat.
Proof.
  assert (Hgen : forall es s, activeWF s ->
            (List.length (filter isDisableSwipe (snd (run delegated s es)))
             + (if wasActive s then 1 else 0)
             = List.length (filter isEnableSwipe (snd (run delegated s es)))
               + (if wasActive (fst (run delegated s es)) then 1 else 0))%nat).
  { clear es. induction es as [|e es IH]; intros s HWF; [simpl; lia|].
    rewrite run_cons. cbn [fst snd]. rewrite !filter_app, !length_app.
    pose proof (step_swipe_accounted delegated s e HWF) as Hs.
    specialize (IH _ (activeWF_step delegated s e HWF)). lia. }
  specialize (Hgen es initialWorld I). simpl in Hgen. lia.
Qed.

Lemma render_scroll_calls (d : bool) (p : Props) (h : option Hooks)
    (w : Window) :
  filter isScrollPatchCall (snd (render d p h w))
  = useScrollPatchEffect d p h.
Proof.
  rewrite render_calls, !filter_app.
  rewrite useAcceptedEffect_filter, useErrorEffect_filter,
    useSwipeEffect_filter by reflexivity.
  rewrite !app_nil_r. apply forallb_filter_id.
  unfold useScrollPatchEffect, scrollPatchEffect.
  repeat break_if; reflexivity.
Qed.

(** X8.  In any world reached from the initial one, the scroll patch of
    the bottom sheet is touched by renders only, and only in a
    delegated bottom sheet: a render clears it when [isActive] is truthy
    and was not at the previous render (or the pad is being mounted),
    applies it when [isActive] is not truthy and was at the previous
    render, and otherwise leaves it alone.  Presses, timeouts and
    unmount never touch it, so unmounting an active pad does not apply
    the patch. *)
Theorem scroll_patch_follows_isActive
    (delegated : bool) (es : list Event) (e : Event) :
  let s := fst (run delegated initialWorld es) in
  filter isScrollPatchCall (snd (step delegated s e))
  = match e with
    | Render p =>
        if delegated
        then if truthy (isActive p)
             then if wasActive s then [] else [ClearScrollPatch]
             else if wasActive s then [ApplyScrollPatch] else []
        else []
    | _ => []
    end.
Proof.
  intro s.
  assert (HWF : activeWF s) by (apply activeWF_run; exact I).
  destruct e as [p | b | ms |].
  - destruct (step_render delegated s p) as (_ & -> & _).
    rewrite render_scroll_calls. now apply useScrollPatchEffect_active.
  - rewrite (proj2 (step_press_calls delegated s b)).
    destruct (instance s); [|reflexivity].
    apply press_filter. intros [] Hc; (discriminate || reflexivity).
  - rewrite (proj2 (step_advance_calls delegated s ms)).
    apply advance_filter. intros [] Hc; (discriminate || reflexivity).
  - rewrite (proj2 (step_unmount_calls delegated s)).
    destruct (instance s) as [h|]; [|reflexivity].
    cbn [filter isScrollPatchCall]. rewrite filter_app.
    unfold runSwipeCleanup.
    destruct (errorCleanup h), (swipeCleanup h); reflexivity.
Qed.

(** ** The accepted flag and the caller *)

Lemma step_clearIsPinAccepted (d : bool) (s : World) (e : Event) :
  filter isClearIsPinAccepted (snd (step d s e))
  = if unmountsPad s e then [ClearIsPinAccepted] else [].
Proof.
  destruct e as [p | b | ms |]; cbn [unmountsPad].
  - destruct (step_render d s p) as (_ & -> & _).
    rewrite render_calls, !filter_app.
    now rewrite useAcceptedEffect_filter, useScrollPatchEffect_filter,
      useErrorEffect_filter, useSwipeEffect_filter by reflexivity.
  - rewrite (proj2 (step_press_calls d s b)).
    destruct (instance s); [|reflexivity].
    apply press_filter. intros [] Hc; (discriminate || reflexivity).
  - rewrite (proj2 (step_advance_calls d s ms)).
    apply advance_filter. intros [] Hc; (discriminate || reflexivity).
  - rewrite (proj2 (step_unmount_calls d s)).
    destruct (instance s) as [h|]; [|reflexivity].
    cbn [filter isClearIsPinAccepted]. rewrite filter_app.
    unfold runSwipeCleanup.
    destruct (errorCleanup h), (swipeCleanup h); reflexivity.
Qed.

(** X9.  [clearIsPinAccepted] is called by nothing but the unmount of a
    mounted pad, once each time: no render, press or timeout calls it,
    and over any run the number of calls is the number of such
    unmounts. *)
Theorem clearIsPinAccepted_only_on_unmount
    (delegated : bool) (s : World) (e : Event) (es : list Event) :
  filter isClearIsPinAccepted (snd (step delegated s e))
  = (if unmountsPad s e then [ClearIsPinAccepted] else [])
  /\ List.length (filter isClearIsPinAccepted (snd (run delegated s es)))
     = countSteps delegated unmountsPad s es.
Proof.
  split; [apply step_clearIsPinAccepted|].
  revert s. induction es as [|e' es IH]; intro s; [reflexivity|].
  rewrite run_cons. cbn [snd countSteps].
  rewrite filter_app, length_app, step_clearIsPinAccepted, IH.
  now destruct (unmountsPad s e').
Qed.

Lemma render_caller_calls (d : bool) (p : Props) (h : option Hooks)
    (w : Window) :
  filter isCallerCallback (snd (render d p h w)) = useAcceptedEffect p h.
Proof.
  rewrite render_calls, !filter_app.
  rewrite useScrollPatchEffect_filter, useErrorEffect_filter,
    useSwipeEffect_filter by reflexivity.
  rewrite !app_nil_r. apply forallb_filter_id.
  unfold useAcceptedEffect, acceptedEffect. repeat break_if; reflexivity.
Qed.

(** X10.  In any world reached from the initial one, the only call a
    render can make to the caller is one [onChange('')], and it makes
    it exactly when [isPinAccepted] was truthy at the previous render,
    is not now, and the buffer is as long as the configured length; a
    render never calls [onSubmit], [onClearError] or
    [onBiometricsClick], and a mount calls the caller not at all. *)
Theorem render_calls_caller_only_on_accepted_edge
    (delegated : bool) (es : list Event) (p : Props) :
  let s := fst (run delegated initialWorld es) in
  filter isCallerCallback (snd (step delegated s (Render p)))
  = (if wasAccepted s && negb (truthy (isPinAccepted p))
        && (pinLength p =? strlen (value p))
     then [OnChange (onChange p) ""] else []).
Proof.
  intro s.
  assert (HWF : WF s) by (apply WF_run, WF_initial).
  destruct (step_render delegated s p) as (_ & -> & _).
  rewrite render_caller_calls.
  unfold useAcceptedEffect, acceptedEffect, wasAccepted, WF in *.
  destruct (instance s) as [h|]; cbn [usePrevious option_map depsChanged].
  - destruct HWF as (_ & Hp & (prev & Ha) & _). rewrite Hp, Ha.
    destruct (truthy (isPinAccepted (rendered h))
              && negb (truthy (isPinAccepted p))
              && (pinLength p =? strlen (value p))) eqn:Hc;
      [|now destruct (AcceptedDeps_eq_dec _ _)].
    destruct (AcceptedDeps_eq_dec _ _) as [Heq|]; [|reflexivity].
    unfold acceptedDepsOf in Heq. injection Heq as Heq _ _ _ _.
    rewrite Heq in Hc. now destruct (truthy (isPinAccepted p)).
  - reflexivity.
Qed.

(** ** CardPros *)

Section CardProsFacts.

Variable Price : Set.
Variable priceTruthy : Price -> bool.
Variable fromDecimal : Price -> Z -> Z.
Variable TONCOIN_decimals : Z.
Variable DEFAULT_FEE : Z.
Variable ApiMtwCardType : Set.

Lemma isEnoughBalance_true (p : CardProsProps Price ApiMtwCardType) :
  isEnoughBalance priceTruthy fromDecimal TONCOIN_decimals DEFAULT_FEE p = true
  <-> exists pr b,
        price p = Some pr /\ balance p = Some b
        /\ priceTruthy pr = true /\ b <> 0
        /\ fromDecimal pr TONCOIN_decimals + DEFAULT_FEE < b.
Proof.
  unfold isEnoughBalance. split.
  - destruct (price p) as [pr|]; [|discriminate].
    destruct (balance p) as [b|]; [|discriminate].
    destruct (priceTruthy pr) eqn:Hp; [|discriminate].
    destruct (Z.eqb_spec b 0) as [|Hb]; [discriminate|]. simpl.
    intro H. apply Z.ltb_lt in H. now exists pr, b.
  - intros (pr & b & -> & -> & -> & Hb & Hlt).
    rewrite (proj2 (Z.eqb_neq _ _) Hb). simpl. now apply Z.ltb_lt.
Qed.

(** X11.  If [CardPros] renders the upgrade button with an [onClick],
    then the button is enabled, clicking calls [startCardMinting] with
    the card type of the props and nothing else, and the props carry a
    truthy price and a non-zero balance strictly greater than the price
    in units plus the default fee: a balance equal to price plus fee is
    not enough. *)
Theorem minting_starts_only_when_funded
    (p : CardProsProps Price ApiMtwCardType)
    (btn : UpgradeButton ApiMtwCardType) (calls : list (CardCall ApiMtwCardType)) :
  renderUpgradeButton priceTruthy fromDecimal TONCOIN_decimals DEFAULT_FEE p
  = Some btn ->
  upgradeOnClick btn = Some calls ->
  calls = [StartCardMinting (cardType p)]
  /\ upgradeDisabled btn = false
  /\ exists pr b,
       price p = Some pr /\ balance p = Some b
       /\ priceTruthy pr = true /\ b <> 0
       /\ fromDecimal pr TONCOIN_decimals + DEFAULT_FEE < b.
Proof.
  unfold renderUpgradeButton. intros Hr Hc.
  destruct (price p) as [pr|] eqn:Hp; [|discriminate].
  destruct (priceTruthy pr) eqn:Ht; [|discriminate].
  injection Hr as <-. simpl in *.
  destruct (isEnoughBalance priceTruthy fromDecimal TONCOIN_decimals
              DEFAULT_FEE p) eqn:He; [|discriminate].
  injection Hc as <-. split; [reflexivity|]. split; [reflexivity|].
  apply isEnoughBalance_true in He. destruct He as (pr' & b & Hp' & He).
  exists pr', b. split; [congruence | exact He].
Qed.

(** X12.  Enough stays enough: if the balance suffices for the upgrade,
    so does every larger positive balance, the price unchanged.  (The
    balance has to stay non-zero: [0n] counts as no balance.) *)
Theorem isEnoughBalance_monotone
    (p : CardProsProps Price ApiMtwCardType) (b b' : Z) :
  isEnoughBalance priceTruthy fromDecimal TONCOIN_decimals DEFAULT_FEE p = true ->
  balance p = Some b ->
  b <= b' ->
  0 < b' ->
  isEnoughBalance priceTruthy fromDecimal TONCOIN_decimals DEFAULT_FEE
    (withBalance p (Some b')) = true.
Proof.
  intros He Hb Hle Hpos. apply isEnoughBalance_true in He.
  destruct He as (pr & b0 & Hp & Hb0 & Ht & _ & Hlt).
  assert (b0 = b) by congruence. subst b0.
  apply isEnoughBalance_true. exists pr, b'. cbn [price balance withBalance].
  repeat split; auto; lia.
Qed.

End CardProsFacts.

Lemma minting_starts_only_when_funded_witness :
  renderUpgradeButton samplePriceTruthy sampleFromDecimal 9 15000000
    (sampleCard 6000000000)
  = Some {| upgradeDisabled := false;
            upgradeOnClick := Some [StartCardMinting 1%nat] |}
  /\ upgradeOnClick {| upgradeDisabled := false;
                       upgradeOnClick := Some [StartCardMinting 1%nat] |}
     = Some [StartCardMinting 1%nat]
  /\ [StartCardMinting 1%nat]
     = [StartCardMinting (cardType (sampleCard 6000000000))].
Proof.
  split; [reflexivity|]. split; [reflexivity|].
  exact (proj1 (minting_starts_only_when_funded
                  Z samplePriceTruthy sampleFromDecimal 9 15000000 nat
                  (sampleCard 6000000000) _ _ eq_refl eq_refl)).
Defined.

Lemma isEnoughBalance_monotone_witness :
  isEnoughBalance samplePriceTruthy sampleFromDecimal 9 15000000
    (sampleCard 6000000000) = true
  /\ balance (sampleCard 6000000000) = Some 6000000000
  /\ 6000000000 <= 7000000000
  /\ 0 < 7000000000
  /\ isEnoughBalance samplePriceTruthy sampleFromDecimal 9 15000000
       (withBalance (sampleCard 6000000000) (Some 7000000000)) = true.
Proof.
  assert (H1 : 6000000000 <= 7000000000) by (vm_compute; discriminate).
  assert (H2 : 0 < 7000000000) by reflexivity.
  split; [reflexivity|]. split; [reflexivity|].
  split; [exact H1|]. split; [exact H2|].
  exact (isEnoughBalance_monotone
           Z samplePriceTruthy sampleFromDecimal 9 15000000 nat
           (sampleCard 6000000000) 6000000000 7000000000
           eq_refl eq_refl H1 H2).
Defined.

(** ** The further theorems at sample inputs *)

Lemma backspace_drops_last_digit_witness :
  0 < strlen (value (withValue emptyPad "12"))
  /\ isSuccess (withValue emptyPad "12") = false
  /\ press (withValue emptyPad "12") Backspace
     = [OnClearError 2%nat; OnChange 1%nat "1"].
Proof.
  split; [reflexivity|]. split; [reflexivity|].
  exact (proj1 (backspace_drops_last_digit (withValue emptyPad "12")
                  eq_refl eq_refl)).
Defined.

Lemma digit_then_backspace_restores_buffer_witness :
  isSuccess (withValue emptyPad "12") = false
  /\ strlen (value (withValue emptyPad "12"))
     <> pinLength (withValue emptyPad "12")
  /\ honour (press (typeKeys (withValue emptyPad "12") [K3]) Backspace)
            (value (typeKeys (withValue emptyPad "12") [K3]))
     = "12".
Proof.
  assert (H : strlen (value (withValue emptyPad "12"))
              <> pinLength (withValue emptyPad "12"))
    by (vm_compute; discriminate).
  split; [reflexivity|]. split; [exact H|].
  exact (digit_then_backspace_restores_buffer (withValue emptyPad "12") K3
           eq_refl H).
Defined.

Lemma typing_appends_and_submits_when_full_witness :
  isSuccess emptyPad = false
  /\ strlen (value emptyPad) + Z.of_nat (List.length [K1; K2; K3; K4])
     <= pinLength emptyPad
  /\ value (typeKeys emptyPad [K1; K2; K3; K4]) = "1234".
Proof.
  assert (H : strlen (value emptyPad)
              + Z.of_nat (List.length [K1; K2; K3; K4])
              <= pinLength emptyPad) by (vm_compute; discriminate).
  split; [reflexivity|]. split; [exact H|].
  exact (proj1 (typing_appends_and_submits_when_full
                  emptyPad [K1; K2; K3; K4] eq_refl H)).
Defined.

Lemma normal_mode_ignores_digits_beyond_length_witness :
  isSuccess emptyPad = false
  /\ isTypeError emptyPad = false
  /\ strlen (value emptyPad) <= pinLength emptyPad
  /\ value (typeKeys emptyPad [K1; K2; K3; K4; K5; K6]) = "1234".
Proof.
  assert (H : strlen (value emptyPad) <= pinLength emptyPad)
    by (vm_compute; discriminate).
  split; [reflexivity|]. split; [reflexivity|]. split; [exact H|].
  exact (proj1 (normal_mode_ignores_digits_beyond_length
                  emptyPad [K1; K2; K3; K4; K5; K6] eq_refl eq_refl H)).
Defined.
